(** * generate_image_paths: a shallow embedding of scripts/generate_image_paths.py

    The script walks a directory tree, keeps the image files, groups their
    relative paths by folder and by extension, and writes a JSON report.

    Modelling choices.
    - A Python [str] is a [string]; characters are compared by their code, as
      Python compares strings.  [lower] lowers the letters A to Z, which is
      what [str.lower] does on ASCII text; on other cased letters
      [str.lower] does more.  The membership test of the collector is
      against ASCII text; what is said of lowercased keys beyond that test
      is said of ASCII names.
    - [pathlib] is modelled in its POSIX flavour ([PurePosixPath]): the
      separator is the slash, and a backslash is an ordinary character of a
      file name.
    - A Python [dict] keeps its keys in insertion order, and that order reaches
      the JSON output, so a dict is an association list in insertion order.
    - The file system, the clock and the process environment are explicit
      inputs; an exception is a value of an error type, carrying its
      message.  [print] is taken not to raise.
    - [Path.suffix] is the one of Python up to 3.13: the text from the last
      dot of the name, unless that dot is its first or its last character. *)

From Stdlib Require Import ZArith Ascii String DecimalString.
From stdpp Require Import base tactics option list strings sorting gmap.

Local Open Scope string_scope.
Local Open Scope list_scope.

(** ** Strings *)

Module Str.

Definition slash : ascii := "/"%char.
Definition backslash : ascii := "092"%char.
Definition dot : ascii := "."%char.
Definition dquote : ascii := "034"%char.
Definition newline : ascii := "010"%char.

(** [len(s)] as a Python integer. *)
Definition len (s : string) : Z := Z.of_nat (String.length s).

(** [s.rfind(c)] for a single character: the highest index of [c], or -1. *)
Fixpoint rfind (c : ascii) (s : string) : Z :=
  match s with
  | EmptyString => (-1)%Z
  | String a s' =>
      let r := rfind c s' in
      if (0 <=? r)%Z then (r + 1)%Z
      else if Ascii.eqb a c then 0%Z else (-1)%Z
  end.

(** [s[i:]] for [0 <= i]. *)
Fixpoint drop (i : nat) (s : string) : string :=
  match i, s with
  | O, _ => s
  | S i', String _ s' => drop i' s'
  | S _, EmptyString => EmptyString
  end.

Definition lower_char (c : ascii) : ascii :=
  let n := nat_of_ascii c in
  if (65 <=? n)%nat && (n <=? 90)%nat then ascii_of_nat (n + 32) else c.

(** [s.lower()] on ASCII text: the letters A to Z are lowered, every other
    character is kept. *)
Fixpoint lower (s : string) : string :=
  match s with
  | EmptyString => EmptyString
  | String a s' => String (lower_char a) (lower s')
  end.

(** [s.isascii()] *)
Fixpoint is_ascii (s : string) : bool :=
  match s with
  | EmptyString => true
  | String a s' => (nat_of_ascii a <? 128)%nat && is_ascii s'
  end.

(** [s.replace(old, new)] for single characters. *)
Fixpoint replace (old new : ascii) (s : string) : string :=
  match s with
  | EmptyString => EmptyString
  | String a s' => String (if Ascii.eqb a old then new else a) (replace old new s')
  end.

(** [s.startswith(p)] *)
Definition startswith (p s : string) : bool := String.prefix p s.

(** [s.split(c)] for a single character: always at least one piece. *)
Fixpoint split (c : ascii) (s : string) : list string :=
  match s with
  | EmptyString => [EmptyString]
  | String a s' =>
      if Ascii.eqb a c then EmptyString :: split c s'
      else match split c s' with
           | [] => [String a EmptyString]
           | w :: ws => String a w :: ws
           end
  end.

(** [sep.join(ws)] *)
Definition join (sep : string) (ws : list string) : string := String.concat sep ws.

(** [c in s] for a character. *)
Fixpoint mem (c : ascii) (s : string) : bool :=
  match s with
  | EmptyString => false
  | String a s' => Ascii.eqb a c || mem c s'
  end.

(** [str(n)] for a non-negative integer. *)
Definition of_nat (n : nat) : string := NilZero.string_of_uint (Nat.to_uint n).

End Str.

(** ** pathlib, POSIX flavour *)

Module PurePath.

(** A parsed path: the root (empty, one slash or two slashes) and the
    components after it. *)
Record t := mk { root : string; tail : list string }.

(** [posixpath.splitroot] *)
Definition splitroot (p : string) : string * string :=
  match p with
  | String "/" (String "/" (String "/" r)) => ("/", String "/" (String "/" r))
  | String "/" (String "/" r) => ("//", r)
  | String "/" r => ("/", r)
  | _ => ("", p)
  end.

(** [Path(s)]: empty components and single-dot components are dropped. *)
Definition Path (s : string) : t :=
  let '(rt, rel) := splitroot s in
  mk rt (List.filter (fun x => negb (String.eqb x "") && negb (String.eqb x "."))
                     (Str.split Str.slash rel)).

(** [str(p)] *)
Definition str (p : t) : string :=
  let s := root p +:+ Str.join "/" (tail p) in
  if String.eqb s "" then "." else s.

(** [p.parent]: a path with no component is its own parent. *)
Definition parent (p : t) : t :=
  match tail p with
  | [] => p
  | _ => mk (root p) (removelast (tail p))
  end.

(** [p.name] *)
Definition name (p : t) : string := List.last (tail p) "".

(** The suffix of a file name: from its last dot, unless that dot is the
    first or the last character. *)
Definition suffix_of_name (nm : string) : string :=
  let i := Str.rfind Str.dot nm in
  if (0 <? i)%Z && (i <? Str.len nm - 1)%Z then Str.drop (Z.to_nat i) nm else "".

(** [p.suffix] *)
Definition suffix (p : t) : string := suffix_of_name (name p).

(** [p.parts] *)
Definition parts (p : t) : list string :=
  if String.eqb (root p) "" then tail p else root p :: tail p.

End PurePath.

(** ** Insertion-ordered dictionaries keyed by strings *)

Module Dict.

Definition t (V : Type) := list (string * V).

Section Ops.
Context {V : Type}.

(** [k in d] *)
Definition contains (k : string) (d : t V) : bool :=
  existsb (fun kv => String.eqb kv.1 k) d.

(** [d.get(k)] *)
Fixpoint get (k : string) (d : t V) : option V :=
  match d with
  | [] => None
  | (k', v) :: d' => if String.eqb k' k then Some v else get k d'
  end.

(** [d[k] = v]: an existing key keeps its position, a new key goes last. *)
Fixpoint set (k : string) (v : V) (d : t V) : t V :=
  match d with
  | [] => [(k, v)]
  | (k', v') :: d' =>
      if String.eqb k' k then (k', v) :: d' else (k', v') :: set k v d'
  end.

(** In-place change of the value stored under [k] (such as [d[k].append(x)]). *)
Fixpoint alter (f : V -> V) (k : string) (d : t V) : t V :=
  match d with
  | [] => []
  | (k', v') :: d' =>
      if String.eqb k' k then (k', f v') :: d' else (k', v') :: alter f k d'
  end.

Definition keys (d : t V) : list string := d.*1.
Definition values (d : t V) : list V := d.*2.
End Ops.

End Dict.

(** ** The grouper *)

(** The loop body shared by [group_by_folder] (lines 57-65) and
    [group_by_extension] (lines 73-81):
    [if key not in grouped: grouped[key] = []] then [grouped[key].append(path)]. *)
Definition group_step (key : string -> string)
    (grouped : Dict.t (list string)) (path : string) : Dict.t (list string) :=
  let k := key path in
  let grouped := if Dict.contains k grouped then grouped else Dict.set k [] grouped in
  Dict.alter (fun l => l ++ [path]) k grouped.

Definition folder_key (path : string) : string :=
  let folder := PurePath.str (PurePath.parent (PurePath.Path path)) in
  if String.eqb folder "." then "root" else folder.

Definition extension_key (path : string) : string :=
  let ext := Str.lower (PurePath.suffix (PurePath.Path path)) in
  if String.eqb ext "" then "no_extension" else ext.

(** The loop of both grouping functions, each with its own key. *)
Definition group (key : string → string) (paths : list string) : Dict.t (list string) :=
  foldl (group_step key) [] paths.

Definition group_by_folder (paths : list string) : Dict.t (list string) :=
  group folder_key paths.

Definition group_by_extension (paths : list string) : Dict.t (list string) :=
  group extension_key paths.

(** The distinct elements of a list, each at its first appearance. *)
Fixpoint first_seen (l : list string) : list string :=
  match l with
  | [] => []
  | x :: l' => x :: filter (λ y, y ≠ x) (first_seen l')
  end.

(** The table a grouping loop is shown to build: one row per key in order of
    first appearance, holding the paths of that key in input order. *)
Definition group_table (key : string → string) (paths : list string)
    : Dict.t (list string) :=
  (λ k, (k, filter (λ p, key p = k) paths)) <$> first_seen (key <$> paths).

(** ** Exceptions *)

(** The outcome of a call that may raise: a value, or the message of the
    exception ([str(e)]). *)
Inductive result (A : Type) :=
  | Ok (a : A)
  | Raise (msg : string).
Arguments Ok {A} a.
Arguments Raise {A} msg.

(** ** The file system seen by the path collector *)

(** A directory tree.  [Special] stands for what is neither a regular file
    nor a directory (a socket, a device, a dangling link). *)
#[local] Unset Elimination Schemes.
Inductive node :=
  | File
  | Special
  | Dir (children : list (string * node)).
#[local] Set Elimination Schemes.

Definition node_is_file (n : node) : bool :=
  match n with File => true | _ => false end.

(** One entry produced by [root_path.rglob("*")]: the components below the
    root, and what [is_file()] answers for it. *)
Record entry := Entry { entry_rel : list string; entry_is_file : bool }.

(** Every entry below a directory, the directory itself left out. *)
Fixpoint rglob_under (prefix : list string) (n : node) : list entry :=
  match n with
  | Dir children =>
      (fix walk (cs : list (string * node)) : list entry :=
         match cs with
         | [] => []
         | (nm, c) :: cs' =>
             Entry (prefix ++ [nm]) (node_is_file c)
               :: rglob_under (prefix ++ [nm]) c ++ walk cs'
         end) children
  | _ => []
  end.

Definition rglob (tree : node) : list entry := rglob_under [] tree.

(** What the script asks of the file system: [Path(root_dir).resolve()] and
    the entries [rglob("*")] yields from there together with the answers of
    [is_file()], in the order the host produces them; either may raise. *)
Record filesystem := {
  fs_resolve : result PurePath.t;
  fs_rglob : result (list entry);
}.

(** The file system shows the tree [tree] at the absolute path [root_path]:
    the walk succeeds and yields the entries of the tree, in some order. *)
Definition shows (fs : filesystem) (root_path : PurePath.t) (tree : node) : Prop :=
  fs_resolve fs = Ok root_path ∧ ∃ walk, fs_rglob fs = Ok walk ∧ walk ≡ₚ rglob tree.

(** A file system that shows [tree] at [root_path], walked in the order [rglob] lists it. *)
Definition mount (root_path : PurePath.t) (tree : node) : filesystem :=
  {| fs_resolve := Ok root_path; fs_rglob := Ok (rglob tree) |}.

(** A name a directory entry can have: not empty, not one of the two dot
    entries, and free of the separator. *)
Definition valid_name (nm : string) : bool :=
  negb (String.eqb nm "") && negb (String.eqb nm ".") && negb (String.eqb nm "..")
  && negb (Str.mem Str.slash nm).

(** A valid name without a backslash. *)
Definition plain_name (nm : string) : bool :=
  valid_name nm && negb (Str.mem Str.backslash nm).

(** Every name of the tree passes [ok], and no directory lists a name twice. *)
Fixpoint tree_ok (ok : string → bool) (n : node) : bool :=
  match n with
  | Dir children =>
      bool_decide (NoDup children.*1)
      && (fix all (cs : list (string * node)) : bool :=
            match cs with
            | [] => true
            | (nm, c) :: cs' => ok nm && tree_ok ok c && all cs'
            end) children
  | _ => true
  end.

(** The node reached from [n] along the components [rel]. *)
Fixpoint tree_lookup (n : node) (rel : list string) {struct rel} : option node :=
  match rel with
  | [] => Some n
  | nm :: rel' =>
      match n with
      | Dir children =>
          (fix find (cs : list (string * node)) : option node :=
             match cs with
             | [] => None
             | (nm', c) :: cs' => if String.eqb nm' nm then tree_lookup c rel' else find cs'
             end) children
      | _ => None
      end
  end.

(** ** The path collector *)

Definition image_extensions : list string :=
  [".jpg"; ".jpeg"; ".png"; ".gif"; ".bmp"; ".tiff"; ".tif";
   ".webp"; ".svg"; ".ico"; ".jfif"; ".pjpeg"; ".pjp";
   ".avif"; ".apng"; ".heic"; ".heif"].

Definition ignore_dirs : list string :=
  [".git"; ".github"; ".vscode"; "__pycache__";
   "node_modules"; "venv"; ".venv"; "env"; "dist";
   "build"; ".next"; ".nuxt"; "out"].

(** [sorted(l)] on strings. *)
Definition sorted (l : list string) : list string := merge_sort String.le l.

(** The body of the loop of [get_image_paths] (lines 34-49) for one entry; [file_path] is
    [root_path] followed by the entry's components, so that
    [file_path.relative_to(root_path)] gives these components back. *)
Definition collect_entry (root_path : PurePath.t) (e : entry) : option string :=
  let file_path := PurePath.mk (PurePath.root root_path)
                               (PurePath.tail root_path ++ entry_rel e) in
  if existsb (λ part, bool_decide (part ∈ ignore_dirs)) (PurePath.parts file_path) then None
  else if Str.startswith "." (PurePath.name file_path) then None
  else if entry_is_file e then
    let ext := Str.lower (PurePath.suffix file_path) in
    if bool_decide (ext ∈ image_extensions) then
      let rel_path := PurePath.mk "" (entry_rel e) in
      Some (Str.replace Str.backslash Str.slash (PurePath.str rel_path))
    else None
  else None.

(** The loop and the final [sorted] (lines 29-51). *)
Definition collect (root_path : PurePath.t) (walk : list entry) : list string :=
  sorted (omap (collect_entry root_path) walk).

(** [get_image_paths] (lines 12-51): resolve the root, walk it, collect. *)
Definition get_image_paths (fs : filesystem) : result (list string) :=
  match fs_resolve fs with
  | Raise msg => Raise msg
  | Ok root_path =>
      match fs_rglob fs with
      | Raise msg => Raise msg
      | Ok walk => Ok (collect root_path walk)
      end
  end.

(** ** The report *)

Record metadata := {
  generated_at : string;
  total_images : nat;
  repository : string;
  commit_sha : string;
  run_id : string;
}.

Record statistics := {
  stat_by_folder : Dict.t nat;
  stat_by_extension : Dict.t nat;
}.

Record images := {
  all_paths : list string;
  by_folder : Dict.t (list string);
  by_extension : Dict.t (list string);
}.

(** The dictionary [output], key by key. *)
Record report := {
  r_metadata : metadata;
  r_statistics : statistics;
  r_images : images;
  summary : string;
}.

(** The clock and the process environment, read while the report is built. *)
Record ambient := {
  now_isoformat : string;
  environ : gmap string string;
}.

(** [os.environ.get(name, default)] *)
Definition environ_get (a : ambient) (name fallback : string) : string :=
  default fallback (environ a !! name).

(** [for k, paths in groups.items(): stats[k] = len(paths)] (lines 93-100) *)
Definition count_groups (groups : Dict.t (list string)) : Dict.t nat :=
  foldl (λ stats kv, Dict.set kv.1 (length kv.2) stats) [] groups.

(** [create_json_output] (lines 85-122) *)
Definition create_json_output (a : ambient) (image_paths : list string) : report :=
  let by_folder := group_by_folder image_paths in
  let by_extension := group_by_extension image_paths in
  let folder_stats := count_groups by_folder in
  let extension_stats := count_groups by_extension in
  {| r_metadata :=
       {| generated_at := now_isoformat a;
          total_images := length image_paths;
          repository := environ_get a "GITHUB_REPOSITORY" "local";
          commit_sha := environ_get a "GITHUB_SHA" "";
          run_id := environ_get a "GITHUB_RUN_ID" "" |};
     r_statistics :=
       {| stat_by_folder := folder_stats; stat_by_extension := extension_stats |};
     r_images :=
       {| all_paths := image_paths; by_folder := by_folder; by_extension := by_extension |};
     summary := "Found " +:+ Str.of_nat (length image_paths) +:+ " image files across "
                +:+ Str.of_nat (length by_folder) +:+ " folders" |}.

(** The literal that [main] builds when no image was found (lines 135-153). *)
Definition empty_output (a : ambient) : report :=
  {| r_metadata :=
       {| generated_at := now_isoformat a;
          total_images := 0;
          repository := environ_get a "GITHUB_REPOSITORY" "local";
          commit_sha := environ_get a "GITHUB_SHA" "";
          run_id := environ_get a "GITHUB_RUN_ID" "" |};
     r_statistics := {| stat_by_folder := []; stat_by_extension := [] |};
     r_images := {| all_paths := []; by_folder := []; by_extension := [] |};
     summary := "No image files found" |}.

(** ** JSON values and [json.dump(..., indent=2, ensure_ascii=False)] *)

#[local] Unset Elimination Schemes.
Inductive json :=
  | JStr (s : string)
  | JInt (n : nat)
  | JList (items : list json)
  | JDict (items : list (string * json)).
#[local] Set Elimination Schemes.

Module Json.

Definition hex_digit (n : nat) : ascii :=
  default "0"%char (String.get n "0123456789abcdef").

(** The replacement of one character inside a JSON string: the quote, the
    backslash and the control characters are escaped, nothing else is. *)
Definition escape_char (c : ascii) : string :=
  let n := nat_of_ascii c in
  let esc (s : string) := String Str.backslash s in
  if Ascii.eqb c Str.dquote then esc (String Str.dquote "")
  else if Ascii.eqb c Str.backslash then esc (String Str.backslash "")
  else if (n =? 8)%nat then esc "b"
  else if (n =? 12)%nat then esc "f"
  else if (n =? 10)%nat then esc "n"
  else if (n =? 13)%nat then esc "r"
  else if (n =? 9)%nat then esc "t"
  else if (n <? 32)%nat then
    esc ("u00" +:+ String (hex_digit (n / 16)) (String (hex_digit (n mod 16)) ""))
  else String c "".

Fixpoint escape (s : string) : string :=
  match s with
  | EmptyString => EmptyString
  | String c s' => escape_char c +:+ escape s'
  end.

Definition encode_string (s : string) : string :=
  String Str.dquote (escape s +:+ String Str.dquote "").

Fixpoint spaces (n : nat) : string :=
  match n with O => "" | S n' => String " " (spaces n') end.

(** A new line followed by the indentation of nesting depth [level]. *)
Definition newline_indent (level : nat) : string :=
  String Str.newline (spaces (2 * level)).

(** The text of a value that starts at nesting depth [level]. *)
Fixpoint dumps (level : nat) (j : json) : string :=
  match j with
  | JStr s => encode_string s
  | JInt n => Str.of_nat n
  | JList [] => "[]"
  | JList items =>
      "[" +:+ newline_indent (S level)
      +:+ Str.join ("," +:+ newline_indent (S level)) (map (dumps (S level)) items)
      +:+ newline_indent level +:+ "]"
  | JDict [] => "{}"
  | JDict items =>
      "{" +:+ newline_indent (S level)
      +:+ Str.join ("," +:+ newline_indent (S level))
            (map (λ kv, encode_string kv.1 +:+ ": " +:+ dumps (S level) kv.2) items)
      +:+ newline_indent level +:+ "}"
  end.

End Json.

Definition dict_to_json {V} (f : V → json) (d : Dict.t V) : json :=
  JDict (map (λ kv, (kv.1, f kv.2)) d).

Definition paths_to_json (l : list string) : json := JList (map JStr l).

(** The report as the nested dictionary the script builds, keys in the order
    the script writes them. *)
Definition report_to_json (r : report) : json :=
  JDict
    [("metadata", JDict
        [("generated_at", JStr (generated_at (r_metadata r)));
         ("total_images", JInt (total_images (r_metadata r)));
         ("repository", JStr (repository (r_metadata r)));
         ("commit_sha", JStr (commit_sha (r_metadata r)));
         ("run_id", JStr (run_id (r_metadata r)))]);
     ("statistics", JDict
        [("by_folder", dict_to_json JInt (stat_by_folder (r_statistics r)));
         ("by_extension", dict_to_json JInt (stat_by_extension (r_statistics r)))]);
     ("images", JDict
        [("all_paths", paths_to_json (all_paths (r_images r)));
         ("by_folder", dict_to_json paths_to_json (by_folder (r_images r)));
         ("by_extension", dict_to_json paths_to_json (by_extension (r_images r)))]);
     ("summary", JStr (summary r))].

(** ** The entry point *)

(** What [main] does to the outside: the lines printed to the two streams,
    the files written in full and the text appended to files, oldest first. *)
Record effects := {
  stdout : list string;
  stderr : list string;
  written : list (string * string);
  appended : list (string * string);
}.

Definition no_effects : effects :=
  {| stdout := []; stderr := []; written := []; appended := [] |}.

(** The host the script runs on.  [open_write name text] is
    [open(name, "w")] followed by writing [text]; [open_append] is the same
    with mode ["a"]; each answers the message of the exception it raises,
    if it raises. *)
Record host := {
  files : filesystem;
  surroundings : ambient;
  open_write : string → string → option string;
  open_append : string → string → option string;
}.

(** Code that has effects and may raise. *)
Definition io (A : Type) : Type := effects → effects * result A.

#[global] Instance io_ret : MRet io := λ A a fx, (fx, Ok a).

#[global] Instance io_bind : MBind io := λ A B k m fx,
  match m fx with
  | (fx', Ok a) => k a fx'
  | (fx', Raise msg) => (fx', Raise msg)
  end.

Definition lift {A} (r : result A) : io A := λ fx, (fx, r).

(** [print(line)] *)
Definition print (line : string) : io unit :=
  λ fx, ({| stdout := stdout fx ++ [line]; stderr := stderr fx;
            written := written fx; appended := appended fx |}, Ok ()).

(** [print(line, file=sys.stderr)] *)
Definition print_err (line : string) : io unit :=
  λ fx, ({| stdout := stdout fx; stderr := stderr fx ++ [line];
            written := written fx; appended := appended fx |}, Ok ()).

Definition write_file (h : host) (name text : string) : io unit :=
  λ fx, match open_write h name text with
        | Some msg => (fx, Raise msg)
        | None => ({| stdout := stdout fx; stderr := stderr fx;
                      written := written fx ++ [(name, text)];
                      appended := appended fx |}, Ok ())
        end.

Definition append_file (h : host) (name text : string) : io unit :=
  λ fx, match open_append h name text with
        | Some msg => (fx, Raise msg)
        | None => ({| stdout := stdout fx; stderr := stderr fx;
                      written := written fx;
                      appended := appended fx ++ [(name, text)] |}, Ok ())
        end.

Fixpoint for_each {A} (l : list A) (body : A → io unit) : io unit :=
  match l with
  | [] => mret ()
  | x :: l' => _ ← body x; for_each l' body
  end.

Definition nl : string := String Str.newline "".

Definition output_file : string := "image_paths.json".

(** [sorted(by_ext.items())]: the keys of a dictionary differ, so the pairs
    are ordered by their keys. *)
Definition sorted_items {V} (d : Dict.t V) : list (string * V) :=
  merge_sort (λ a b, String.le a.1 b.1) d.

(** The report [main] writes for a path list. *)
Definition build_output (a : ambient) (image_paths : list string) : report :=
  match image_paths with
  | [] => empty_output a
  | _ => create_json_output a image_paths
  end.

(** The first half of the [try] block of [main] (lines 130-164): scan,
    report the count, build the report. *)
Definition main_scan (h : host) : io report :=
  image_paths ← lift (get_image_paths (files h)) ;
  match image_paths with
  | [] =>
      print "⚠️  未找到图片文件" ;;
      mret (empty_output (surroundings h))
  | _ =>
      print ("📊 找到 " +:+ Str.of_nat (length image_paths) +:+ " 个图片文件") ;;
      let by_ext := group_by_extension image_paths in
      print (nl +:+ "📁 按扩展名统计:") ;;
      for_each (sorted_items by_ext)
        (λ kv, print ("  " +:+ kv.1 +:+ ": " +:+ Str.of_nat (length kv.2) +:+ " 个")) ;;
      mret (create_json_output (surroundings h) image_paths)
  end.

(** The text appended to the file named by [GITHUB_OUTPUT]. *)
Definition step_outputs (output : report) : string :=
  "total_images=" +:+ Str.of_nat (total_images (r_metadata output)) +:+ nl
  +:+ "output_file=" +:+ output_file +:+ nl.

(** The second half (lines 166-180): write the report, announce it, feed
    the CI sink. *)
Definition main_emit (h : host) (output : report) : io Z :=
  write_file h output_file (Json.dumps 0 (report_to_json output)) ;;
  print (nl +:+ "✅ 成功生成 " +:+ output_file) ;;
  print ("📝 总图片数: " +:+ Str.of_nat (total_images (r_metadata output))) ;;
  match environ (surroundings h) !! "GITHUB_OUTPUT" with
  | Some sink => append_file h sink (step_outputs output)
  | None => mret ()
  end ;;
  mret 0%Z.

(** The body of the [try] block of [main]. *)
Definition main_body (h : host) : io Z :=
  output ← main_scan h ;
  main_emit h output.

(** The line the [except] clause prints. *)
Definition diagnostic (msg : string) : string := "❌ 生成失败: " +:+ msg.

(** [main]: the effects of a run and the status it returns.  The first
    line is printed before the [try] block is entered. *)
Definition main (h : host) : effects * Z :=
  let (started, _) := print "🚀 开始扫描图片文件..." no_effects in
  match main_body h started with
  | (fx, Ok status) => (fx, status)
  | (fx, Raise msg) =>
      let (fx', _) := print_err (diagnostic msg) fx in
      (fx', 1%Z)
  end.

Definition exit_status (h : host) : Z := (main h).2.
Definition run_effects (h : host) : effects := (main h).1.

(** What a run leaves behind, apart from the standard output: the status,
    the error stream, the files written and the text appended. *)
Definition footprint (h : host) : Z * list string * list (string * string) * list (string * string) :=
  (exit_status h, stderr (run_effects h), written (run_effects h), appended (run_effects h)).

(** The report with another timestamp. *)
Definition with_generated_at (stamp : string) (r : report) : report :=
  {| r_metadata :=
       {| generated_at := stamp;
          total_images := total_images (r_metadata r);
          repository := repository (r_metadata r);
          commit_sha := commit_sha (r_metadata r);
          run_id := run_id (r_metadata r) |};
     r_statistics := r_statistics r;
     r_images := r_images r;
     summary := summary r |}.

(** The text of a report up to its timestamp, and the text after it. *)
Definition report_head : string :=
  "{" +:+ Json.newline_indent 1 +:+ Json.encode_string "metadata" +:+ ": "
  +:+ "{" +:+ Json.newline_indent 2 +:+ Json.encode_string "generated_at" +:+ ": ".

Definition report_tail (r : report) : string :=
  ("," +:+ Json.newline_indent 2
   +:+ Str.join ("," +:+ Json.newline_indent 2)
         [Json.encode_string "total_images" +:+ ": "
            +:+ Json.dumps 2 (JInt (total_images (r_metadata r)));
          Json.encode_string "repository" +:+ ": "
            +:+ Json.dumps 2 (JStr (repository (r_metadata r)));
          Json.encode_string "commit_sha" +:+ ": "
            +:+ Json.dumps 2 (JStr (commit_sha (r_metadata r)));
          Json.encode_string "run_id" +:+ ": "
            +:+ Json.dumps 2 (JStr (run_id (r_metadata r)))]
   +:+ Json.newline_indent 1 +:+ "}")
  +:+ "," +:+ Json.newline_indent 1
  +:+ Str.join ("," +:+ Json.newline_indent 1)
        [Json.encode_string "statistics" +:+ ": "
           +:+ Json.dumps 1 (JDict
                 [("by_folder", dict_to_json JInt (stat_by_folder (r_statistics r)));
                  ("by_extension", dict_to_json JInt (stat_by_extension (r_statistics r)))]);
         Json.encode_string "images" +:+ ": "
           +:+ Json.dumps 1 (JDict
                 [("all_paths", paths_to_json (all_paths (r_images r)));
                  ("by_folder", dict_to_json paths_to_json (by_folder (r_images r)));
                  ("by_extension", dict_to_json paths_to_json (by_extension (r_images r)))]);
         Json.encode_string "summary" +:+ ": " +:+ Json.dumps 1 (JStr (summary r))]
  +:+ Json.newline_indent 0 +:+ "}".

(** ** Concrete hosts and trees *)

Module Sample.

(** The resolved working directory of a CI checkout. *)
Definition repo : PurePath.t := PurePath.mk "/" ["home"; "runner"; "work"; "repo"].

Definition first_run : ambient :=
  {| now_isoformat := "2024-05-01T10:00:00.000001";
     environ := {[ "GITHUB_REPOSITORY" := "owner/pool" ]} |}.

Definition second_run : ambient :=
  {| now_isoformat := "2024-05-01T10:05:30.250000";
     environ := {[ "GITHUB_REPOSITORY" := "owner/pool" ]} |}.

(** A host on which every write succeeds. *)
Definition writable (fs : filesystem) (a : ambient) : host :=
  {| files := fs; surroundings := a;
     open_write := λ _ _, None; open_append := λ _ _, None |}.

(** A host whose working directory is read-only. *)
Definition read_only (fs : filesystem) (a : ambient) : host :=
  {| files := fs; surroundings := a;
     open_write := λ name _, Some ("[Errno 13] Permission denied: '" +:+ name +:+ "'");
     open_append := λ _ _, None |}.

(** A run of a CI step: [GITHUB_OUTPUT] names the file of the step outputs. *)
Definition ci_run : ambient :=
  {| now_isoformat := "2024-05-01T10:00:00.000001";
     environ := {[ "GITHUB_OUTPUT" := "/run/step_output" ]} |}.

(** A host on which the report can be written, but no file be appended to. *)
Definition sink_closed (fs : filesystem) (a : ambient) : host :=
  {| files := fs; surroundings := a;
     open_write := λ _ _, None;
     open_append := λ name _, Some ("[Errno 13] Permission denied: '" +:+ name +:+ "'") |}.

(** The tree of the scenario of the specification. *)
Definition scenario : node :=
  Dir [("a.png", File);
       ("a", Dir [("b.JPG", File)]);
       (".git", Dir [("c.png", File)]);
       ("node_modules", Dir [("d.gif", File)])].

(** The same tree, listed by the host in the opposite order. *)
Definition scenario_backwards : filesystem :=
  {| fs_resolve := Ok repo; fs_rglob := Ok (reverse (rglob scenario)) |}.

Definition hidden_directory : node := Dir [(".hidden", Dir [("a.png", File)])].

(** A directory [a] holding [b.png], next to a file whose name is
    a-backslash-b.png. *)
Definition clash : node := Dir [("a", Dir [("b.png", File)]); ("a\b.png", File)].

(** Two files of the root directory whose names contain a backslash. *)
Definition leak : node := Dir [("out\x.png", File); ("x\.png", File)].

Definition lost_extension : node := Dir [("x\.png", File)].

End Sample.

(** * Verification *)

(** ** Facts about dictionaries *)

Section DictFacts.
Context {V : Type}.
Implicit Types (d : Dict.t V) (k : string) (v : V).

Lemma contains_elem_of k d : Dict.contains k d = true ↔ k ∈ Dict.keys d.
Proof.
  unfold Dict.contains, Dict.keys. induction d as [|[k' v'] d IH]; csimpl.
  - split; [done | by intros ?%elem_of_nil].
  - rewrite orb_true_iff, IH, elem_of_cons, String.eqb_eq. intuition congruence.
Qed.

Lemma contains_false k d : Dict.contains k d = false ↔ k ∉ Dict.keys d.
Proof.
  rewrite <- contains_elem_of. destruct (Dict.contains k d); naive_solver.
Qed.

Lemma set_fresh k v d : k ∉ Dict.keys d → Dict.set k v d = d ++ [(k, v)].
Proof.
  unfold Dict.keys. induction d as [|[k' v'] d IH]; csimpl; [done|].
  intros [Hne Hnin]%not_elem_of_cons.
  destruct (String.eqb_spec k' k); [congruence|]. by rewrite IH.
Qed.

Lemma alter_last f k v d :
  k ∉ Dict.keys d → Dict.alter f k (d ++ [(k, v)]) = d ++ [(k, f v)].
Proof.
  unfold Dict.keys. induction d as [|[k' v'] d IH]; csimpl.
  - by rewrite String.eqb_refl.
  - intros [Hne Hnin]%not_elem_of_cons.
    destruct (String.eqb_spec k' k); [congruence|]. by rewrite IH.
Qed.

Lemma alter_keys f k d : Dict.keys (Dict.alter f k d) = Dict.keys d.
Proof.
  unfold Dict.keys. induction d as [|[k' v'] d IH]; csimpl; [done|].
  destruct (String.eqb k' k); csimpl; [done|]. by rewrite IH.
Qed.

(** On a dictionary written as a table over its keys, [alter] changes the
    one row of its key. *)
Lemma alter_table f k (g : string → V) (ks : list string) :
  NoDup ks →
  Dict.alter f k ((λ x, (x, g x)) <$> ks)
  = (λ x, (x, if decide (x = k) then f (g x) else g x)) <$> ks.
Proof.
  induction 1 as [|x ks Hx Hnd IH]; csimpl; [done|].
  destruct (String.eqb_spec x k) as [->|Hne].
  - rewrite decide_True by done. f_equal.
    apply list_fmap_ext. intros i y Hy. rewrite decide_False; [done|].
    intros ->. apply Hx. by eapply list_elem_of_lookup_2.
  - rewrite decide_False by done. by rewrite IH.
Qed.

Lemma get_table (g : string → V) (ks : list string) k :
  Dict.get k ((λ x, (x, g x)) <$> ks) = if decide (k ∈ ks) then Some (g k) else None.
Proof.
  induction ks as [|x ks IH]; csimpl; [done|].
  destruct (String.eqb_spec x k) as [->|Hne].
  - by rewrite decide_True by left.
  - rewrite IH. destruct (decide (k ∈ ks)).
    + by rewrite decide_True by (by right).
    + rewrite decide_False; [done|]. by intros [->|?]%elem_of_cons.
Qed.
End DictFacts.

(** ** Two facts about [filter] *)

Section FilterFacts.
Context {A : Type} (P : A → Prop) `{!∀ x, Decision (P x)}.

Lemma filter_all (l : list A) : Forall P l → filter P l = l.
Proof.
  induction 1 as [|x l Hx Hl IH]; [done|].
  by rewrite filter_cons_True, IH.
Qed.

Lemma filter_none (l : list A) : Forall (λ x, ¬ P x) l → filter P l = [].
Proof.
  induction 1 as [|x l Hx Hl IH]; [done|].
  by rewrite filter_cons_False.
Qed.
End FilterFacts.

(** ** The keys of a grouping, in order of first appearance *)

Lemma elem_of_first_seen x l : x ∈ first_seen l ↔ x ∈ l.
Proof.
  induction l as [|y l IH]; csimpl; [done|].
  rewrite !elem_of_cons, list_elem_of_filter, IH.
  destruct (decide (x = y)); intuition congruence.
Qed.

Lemma NoDup_first_seen l : NoDup (first_seen l).
Proof.
  induction l as [|y l IH]; csimpl; constructor.
  - rewrite list_elem_of_filter. by intros [? _].
  - by apply NoDup_filter.
Qed.

Lemma first_seen_snoc l x :
  first_seen (l ++ [x]) = if decide (x ∈ l) then first_seen l else first_seen l ++ [x].
Proof.
  induction l as [|y l IH]; csimpl; [done|].
  rewrite IH. destruct (decide (x ∈ l)) as [Hin|Hnin].
  - by rewrite decide_True by (by right).
  - rewrite filter_app, filter_cons, filter_nil.
    destruct (decide (x = y)) as [->|Hne].
    + rewrite (decide_True (P := y ∈ y :: l)) by left.
      rewrite (decide_False (P := y ≠ y)) by (by intros ?).
      by rewrite app_nil_r.
    + rewrite (decide_False (P := x ∈ y :: l)) by (by intros [?|?]%elem_of_cons).
      by rewrite (decide_True (P := x ≠ y)) by done.
Qed.

(** A list without repetition is a list of first appearances. *)
Lemma first_seen_NoDup l : NoDup l → first_seen l = l.
Proof.
  induction 1 as [|x l Hx Hnd IH]; csimpl; [done|]. rewrite IH. f_equal.
  apply filter_all, Forall_forall. by intros y Hy ->.
Qed.

(** ** What a grouping loop computes *)

Section Grouping.
Variable key : string → string.

Lemma group_snoc paths x : group key (paths ++ [x]) = group_step key (group key paths) x.
Proof. unfold group. by rewrite foldl_app. Qed.

Lemma group_table_keys paths : Dict.keys (group_table key paths) = first_seen (key <$> paths).
Proof.
  unfold Dict.keys, group_table. rewrite <- list_fmap_compose.
  by rewrite list_fmap_id.
Qed.

Lemma group_is_table paths : group key paths = group_table key paths.
Proof.
  induction paths as [|x paths IH] using rev_ind; [done|].
  rewrite group_snoc, IH. unfold group_step.
  destruct (Dict.contains (key x) (group_table key paths)) eqn:Hc.
  - apply contains_elem_of in Hc. rewrite group_table_keys, elem_of_first_seen in Hc.
    unfold group_table at 1. rewrite alter_table by apply NoDup_first_seen.
    unfold group_table. rewrite fmap_app. csimpl.
    rewrite first_seen_snoc, decide_True by done.
    apply list_fmap_ext. intros i k Hk. rewrite filter_app.
    destruct (decide (k = key x)) as [->|Hne].
    + by rewrite filter_cons_True.
    + rewrite filter_cons_False by done. by rewrite filter_nil, app_nil_r.
  - apply contains_false in Hc.
    rewrite set_fresh, alter_last by done.
    rewrite group_table_keys, elem_of_first_seen in Hc.
    unfold group_table. rewrite fmap_app. csimpl.
    rewrite first_seen_snoc, decide_False by done.
    rewrite fmap_app. csimpl. f_equal.
    + apply list_fmap_ext. intros i k Hk. rewrite filter_app.
      rewrite filter_cons_False, filter_nil, app_nil_r; [done|].
      intros Heq. apply Hc. rewrite Heq.
      apply elem_of_first_seen. by eapply list_elem_of_lookup_2.
    + rewrite filter_app, filter_cons_True by done.
      rewrite filter_none; [done|].
      apply Forall_forall. intros p Hp Heq. apply Hc. rewrite <- Heq.
      by apply list_elem_of_fmap_2.
Qed.

Lemma group_keys paths : Dict.keys (group key paths) = first_seen (key <$> paths).
Proof. by rewrite group_is_table, group_table_keys. Qed.

Lemma group_keys_NoDup paths : NoDup (Dict.keys (group key paths)).
Proof. rewrite group_keys. apply NoDup_first_seen. Qed.

Lemma elem_of_group k v paths :
  (k, v) ∈ group key paths ↔ k ∈ key <$> paths ∧ v = filter (λ p, key p = k) paths.
Proof.
  rewrite group_is_table. unfold group_table. split.
  - intros (k' & Heq & Hk)%list_elem_of_fmap. simplify_eq.
    rewrite elem_of_first_seen in Hk. by split.
  - intros [Hk ->]. apply list_elem_of_fmap. exists k.
    by rewrite elem_of_first_seen.
Qed.

Lemma group_get k paths :
  Dict.get k (group key paths)
  = if decide (k ∈ key <$> paths) then Some (filter (λ p, key p = k) paths) else None.
Proof.
  rewrite group_is_table. unfold group_table. rewrite get_table.
  destruct (decide (k ∈ key <$> paths)) as [Hin|Hnin].
  - by rewrite decide_True by (by apply elem_of_first_seen).
  - by rewrite decide_False by (by rewrite elem_of_first_seen).
Qed.

(** Rows over distinct keys that cover every path hold, together, each
    path once. *)
Lemma table_concat_perm (ks : list string) (l : list string) :
  NoDup ks → (∀ p, p ∈ l → key p ∈ ks) →
  concat ((λ k, filter (λ p, key p = k) l) <$> ks) ≡ₚ l.
Proof.
  intros Hnd. revert l. induction Hnd as [|k ks Hk Hnd IH]; intros l Hcov; csimpl.
  - destruct l as [|p l]; [done|]. exfalso.
    eapply not_elem_of_nil, (Hcov p). by left.
  - etrans; [|apply (filter_app_complement (λ p, key p = k) l)].
    apply Permutation_app_head.
    assert (((λ k0, filter (λ p, key p = k0) l) <$> ks)
            = ((λ k0, filter (λ p, key p = k0) (filter (λ p, key p ≠ k) l)) <$> ks))
      as ->.
    { apply list_fmap_ext. intros i k' Hk'.
      rewrite list_filter_filter. apply list_filter_iff. intros p. split; [|tauto].
      intros ->. split; [done|]. intros ->. apply Hk.
      by eapply list_elem_of_lookup_2. }
    apply IH. intros p [Hne Hp]%list_elem_of_filter.
    specialize (Hcov p Hp). by apply elem_of_cons in Hcov as [?|?].
Qed.

Lemma group_values_perm paths : concat (Dict.values (group key paths)) ≡ₚ paths.
Proof.
  rewrite group_is_table. unfold Dict.values, group_table.
  rewrite <- list_fmap_compose.
  apply table_concat_perm; [apply NoDup_first_seen|].
  intros p Hp. apply elem_of_first_seen. by apply list_elem_of_fmap_2.
Qed.

(** No row is empty: a key exists only because some path has it. *)
Lemma group_row_nonempty k v paths : (k, v) ∈ group key paths → v ≠ [].
Proof.
  intros [(p & -> & Hp)%list_elem_of_fmap ->]%elem_of_group Hnil.
  by apply (filter_nil_not_elem_of _ _ p) in Hnil.
Qed.
End Grouping.

(** ** Sorted lists and sub-selections *)

Section SortedFacts.
Context {A : Type} (R : relation A) `{!Transitive R}.
Context (P : A → Prop) `{!∀ x, Decision (P x)}.

Lemma StronglySorted_filter (l : list A) :
  StronglySorted R l → StronglySorted R (filter P l).
Proof.
  induction 1 as [|x l Hl IH Hx]; [constructor|].
  destruct (decide (P x)).
  - rewrite filter_cons_True by done. constructor; [done|].
    apply Forall_forall. intros y [_ Hy]%list_elem_of_filter.
    by eapply Forall_forall in Hx.
  - by rewrite filter_cons_False.
Qed.

Lemma Sorted_filter (l : list A) : Sorted R l → Sorted R (filter P l).
Proof.
  intros Hl. apply StronglySorted_Sorted, StronglySorted_filter.
  by apply Sorted_StronglySorted.
Qed.
End SortedFacts.

(** ** Group counts *)

Lemma count_groups_from (acc : Dict.t nat) (groups : Dict.t (list string)) :
  NoDup (Dict.keys acc ++ Dict.keys groups) →
  foldl (λ stats kv, Dict.set kv.1 (length kv.2) stats) acc groups
  = acc ++ ((λ kv, (kv.1, length kv.2)) <$> groups).
Proof.
  revert acc. induction groups as [|[k v] groups IH]; intros acc Hnd; csimpl.
  - by rewrite app_nil_r.
  - unfold Dict.keys in *. csimpl in Hnd.
    apply NoDup_app in Hnd as (Hacc & Hdisj & Hg).
    apply NoDup_cons in Hg as [Hk Hg].
    rewrite set_fresh by (intros Hin; eapply Hdisj; [done|by left]).
    rewrite IH.
    + by rewrite <- app_assoc.
    + unfold Dict.keys. rewrite fmap_app. csimpl. apply NoDup_app. split_and!.
      * apply NoDup_app. split_and!; [done| |apply NoDup_singleton].
        intros x Hx ->%list_elem_of_singleton. eapply Hdisj; [done|by left].
      * intros x [Hx| ->%list_elem_of_singleton]%elem_of_app Hin; [|done].
        eapply Hdisj; [done|by right].
      * done.
Qed.

Lemma count_groups_table (groups : Dict.t (list string)) :
  NoDup (Dict.keys groups) →
  count_groups groups = (λ kv, (kv.1, length kv.2)) <$> groups.
Proof. intros Hnd. unfold count_groups. by rewrite count_groups_from. Qed.

Lemma sum_list_lengths (ls : list (list string)) :
  sum_list (length <$> ls) = length (concat ls).
Proof.
  induction ls as [|l ls IH]; csimpl; [done|]. by rewrite length_app, IH.
Qed.

Lemma count_groups_total (key : string → string) (paths : list string) :
  sum_list (Dict.values (count_groups (group key paths))) = length paths.
Proof.
  rewrite count_groups_table by apply group_keys_NoDup.
  unfold Dict.values. rewrite <- list_fmap_compose.
  rewrite <- (Permutation_length (group_values_perm key paths)).
  rewrite <- sum_list_lengths. unfold Dict.values.
  by rewrite <- list_fmap_compose.
Qed.

Lemma count_groups_keys (key : string → string) (paths : list string) :
  Dict.keys (count_groups (group key paths)) = Dict.keys (group key paths).
Proof.
  rewrite count_groups_table by apply group_keys_NoDup.
  unfold Dict.keys. by rewrite <- list_fmap_compose.
Qed.

(** Every path sits in the row of its key and in no other row. *)
Lemma group_exactly_one (key : string → string) (paths : list string) (p : string) :
  p ∈ paths →
  ∃ k v, (k, v) ∈ group key paths ∧ p ∈ v ∧
         ∀ k' v', (k', v') ∈ group key paths → p ∈ v' → (k', v') = (k, v).
Proof.
  intros Hp. exists (key p), (filter (λ q, key q = key p) paths). split_and!.
  - apply elem_of_group. split; [by apply list_elem_of_fmap_2|done].
  - by apply list_elem_of_filter.
  - intros k' v' [_ ->]%elem_of_group [Hk _]%list_elem_of_filter. by rewrite Hk.
Qed.

(** ** The grouper and the report builder *)

(** C3: in the report built from any path list, the by-folder and the
    by-extension groupings each partition the list: the keys of a grouping are
    distinct, every path of the list lies in exactly one of its groups, the
    groups put together hold exactly the paths of the list (each as often as
    the list has it), and the counts of [statistics.by_folder], as those of
    [statistics.by_extension], add up to [metadata.total_images]. *)
Theorem groupings_partition_the_paths (a : ambient) (paths : list string) :
  let r := create_json_output a paths in
  (∀ g, g = by_folder (r_images r) ∨ g = by_extension (r_images r) →
     NoDup (Dict.keys g) ∧
     (∀ p, p ∈ paths →
        ∃ k v, (k, v) ∈ g ∧ p ∈ v ∧
               ∀ k' v', (k', v') ∈ g → p ∈ v' → (k', v') = (k, v)) ∧
     concat (Dict.values g) ≡ₚ paths) ∧
  sum_list (Dict.values (stat_by_folder (r_statistics r))) = total_images (r_metadata r) ∧
  sum_list (Dict.values (stat_by_extension (r_statistics r))) = total_images (r_metadata r) ∧
  Dict.keys (stat_by_folder (r_statistics r)) = Dict.keys (by_folder (r_images r)) ∧
  Dict.keys (stat_by_extension (r_statistics r)) = Dict.keys (by_extension (r_images r)).
Proof.
  cbn zeta. unfold create_json_output, group_by_folder, group_by_extension. cbn.
  split_and!.
  - intros g [-> | ->]; split_and!;
      auto using group_keys_NoDup, group_exactly_one, group_values_perm.
  - apply count_groups_total.
  - apply count_groups_total.
  - apply count_groups_keys.
  - apply count_groups_keys.
Qed.

(** ** Running [main] *)

Lemma for_each_print {A} (f : A → string) (l : list A) (fx : effects) :
  for_each l (λ x, print (f x)) fx
  = ({| stdout := stdout fx ++ (f <$> l); stderr := stderr fx;
        written := written fx; appended := appended fx |}, Ok ()).
Proof.
  revert fx. induction l as [|x l IH]; intros fx; csimpl.
  - rewrite app_nil_r. by destruct fx.
  - unfold mbind, io_bind, print at 1. rewrite IH. cbn.
    by rewrite <- app_assoc.
Qed.

(** The scan prints to the standard output only, and hands over the report
    of the collected paths; a failing scan has no effect at all. *)
Lemma main_scan_run (h : host) (fx : effects) :
  match get_image_paths (files h) with
  | Raise msg => main_scan h fx = (fx, Raise msg)
  | Ok paths =>
      ∃ lines,
        main_scan h fx
        = ({| stdout := stdout fx ++ lines; stderr := stderr fx;
              written := written fx; appended := appended fx |},
           Ok (build_output (surroundings h) paths))
  end.
Proof.
  unfold main_scan, mbind, io_bind, lift.
  destruct (get_image_paths (files h)) as [[|p paths]|msg]; [| |done].
  - by eexists.
  - unfold print at 1 2. cbn [fst snd stdout stderr written appended].
    rewrite for_each_print. cbn. rewrite <- !app_assoc. by eexists.
Qed.


(** The second half either stops at the write, or at the append, or ends
    with status 0; it never touches the error stream. *)
Lemma main_emit_run (h : host) (output : report) (fx : effects) :
  let text := Json.dumps 0 (report_to_json output) in
  let lines := [nl +:+ "✅ 成功生成 " +:+ output_file;
                "📝 总图片数: " +:+ Str.of_nat (total_images (r_metadata output))] in
  let fx1 := {| stdout := stdout fx ++ lines; stderr := stderr fx;
                written := written fx ++ [(output_file, text)];
                appended := appended fx |} in
  main_emit h output fx =
  match open_write h output_file text with
  | Some msg => (fx, Raise msg)
  | None =>
      match environ (surroundings h) !! "GITHUB_OUTPUT" with
      | None => (fx1, Ok 0%Z)
      | Some sink =>
          match open_append h sink (step_outputs output) with
          | Some msg => (fx1, Raise msg)
          | None =>
              ({| stdout := stdout fx1; stderr := stderr fx1; written := written fx1;
                  appended := appended fx1 ++ [(sink, step_outputs output)] |}, Ok 0%Z)
          end
      end
  end.
Proof.
  cbn zeta. unfold main_emit, mbind, io_bind, write_file.
  destruct (open_write h output_file _) as [msg|]; [done|].
  unfold print. cbn [fst snd stdout stderr written appended].
  rewrite <- app_assoc. cbn [app].
  destruct (environ (surroundings h) !! "GITHUB_OUTPUT") as [sink|]; [|done].
  unfold append_file. cbn [fst snd stdout stderr written appended].
  by destruct (open_append h sink _) as [msg|].
Qed.

Lemma main_footprint (h : host) :
  footprint h =
  match get_image_paths (files h) with
  | Raise msg => (1%Z, [diagnostic msg], [], [])
  | Ok paths =>
      let output := build_output (surroundings h) paths in
      let text := Json.dumps 0 (report_to_json output) in
      match open_write h output_file text with
      | Some msg => (1%Z, [diagnostic msg], [], [])
      | None =>
          match environ (surroundings h) !! "GITHUB_OUTPUT" with
          | None => (0%Z, [], [(output_file, text)], [])
          | Some sink =>
              match open_append h sink (step_outputs output) with
              | Some msg => (1%Z, [diagnostic msg], [(output_file, text)], [])
              | None => (0%Z, [], [(output_file, text)], [(sink, step_outputs output)])
              end
          end
      end
  end.
Proof.
  unfold footprint, exit_status, run_effects.
  match goal with |- _ = ?rhs =>
    assert (∃ fx status, main h = (fx, status)
              ∧ (status, stderr fx, written fx, appended fx) = rhs)
      as (fx & status & -> & <-); [|done]
  end.
  unfold main, main_body. unfold print at 1.
  unfold mbind at 1, io_bind at 1.
  pose proof (main_scan_run h
    {| stdout := stdout no_effects ++ ["🚀 开始扫描图片文件..."]; stderr := stderr no_effects;
       written := written no_effects; appended := appended no_effects |}) as Hscan.
  destruct (get_image_paths (files h)) as [paths|msg].
  - destruct Hscan as [lines ->]. cbn zeta. rewrite main_emit_run. cbn zeta.
    destruct (open_write h output_file _) as [msg|]; [by eexists _, _|].
    destruct (environ (surroundings h) !! "GITHUB_OUTPUT") as [sink|]; [|by eexists _, _].
    destruct (open_append h sink _) as [msg|]; by eexists _, _.
  - rewrite Hscan. by eexists _, _.
Qed.

Lemma footprint_fields (h : host) status err wr ap :
  footprint h = (status, err, wr, ap) →
  exit_status h = status ∧ stderr (run_effects h) = err
  ∧ written (run_effects h) = wr ∧ appended (run_effects h) = ap.
Proof. unfold footprint. by intros [= -> -> -> ->]. Qed.

(** A report is written whenever the scan returns and the write does not raise. *)
Lemma main_writes_report (h : host) (paths : list string) :
  get_image_paths (files h) = Ok paths →
  let text := Json.dumps 0 (report_to_json (build_output (surroundings h) paths)) in
  open_write h output_file text = None →
  written (run_effects h) = [(output_file, text)].
Proof.
  intros Hscan text Hw. pose proof (main_footprint h) as Hf.
  rewrite Hscan in Hf. cbn zeta in Hf. fold text in Hf. rewrite Hw in Hf.
  destruct (environ (surroundings h) !! "GITHUB_OUTPUT") as [sink|].
  - destruct (open_append h sink _); by apply footprint_fields in Hf as (_ & _ & ? & _).
  - by apply footprint_fields in Hf as (_ & _ & ? & _).
Qed.

(** C1: when the collected path list is empty, the report is the fully
    populated literal: [total_images] is 0, every statistic and grouping is
    empty, the summary is the fixed sentence and not the counting template;
    and this report is what the run writes to the output file. *)
Theorem empty_scan_writes_the_empty_report (h : host) :
  get_image_paths (files h) = Ok [] →
  let a := surroundings h in
  let r := empty_output a in
  report_to_json r =
    JDict
      [("metadata", JDict
          [("generated_at", JStr (now_isoformat a));
           ("total_images", JInt 0);
           ("repository", JStr (environ_get a "GITHUB_REPOSITORY" "local"));
           ("commit_sha", JStr (environ_get a "GITHUB_SHA" ""));
           ("run_id", JStr (environ_get a "GITHUB_RUN_ID" ""))]);
       ("statistics", JDict [("by_folder", JDict []); ("by_extension", JDict [])]);
       ("images", JDict
          [("all_paths", JList []); ("by_folder", JDict []); ("by_extension", JDict [])]);
       ("summary", JStr "No image files found")] ∧
  total_images (r_metadata r) = 0 ∧
  summary r = "No image files found" ∧
  summary r ≠ summary (create_json_output a []) ∧
  (open_write h output_file (Json.dumps 0 (report_to_json r)) = None →
   written (run_effects h) = [(output_file, Json.dumps 0 (report_to_json r))]) ∧
  (∀ msg, open_write h output_file (Json.dumps 0 (report_to_json r)) = Some msg →
   exit_status h = 1%Z).
Proof.
  intros Hscan a r. split_and!; try done.
  - intros Hw. by apply (main_writes_report h []).
  - intros msg Hw. pose proof (main_footprint h) as Hf.
    rewrite Hscan in Hf. cbn zeta in Hf. change (build_output (surroundings h) []) with r in Hf.
    rewrite Hw in Hf. by apply footprint_fields in Hf as (? & _).
Qed.

(** C2: for a non-empty path list the summary is the counting sentence, with
    N the value of [metadata.total_images], which is the length of the list,
    and M the number of keys of the by-folder grouping; these keys are
    distinct and are the folder keys of the paths.  This is the report a run
    writes when its scan returns that list. *)
Theorem summary_counts_images_and_folders (a : ambient) (paths : list string) :
  paths ≠ [] →
  let r := build_output a paths in
  let folders := Dict.keys (by_folder (r_images r)) in
  r = create_json_output a paths ∧
  summary r = "Found " +:+ Str.of_nat (total_images (r_metadata r))
              +:+ " image files across " +:+ Str.of_nat (length folders) +:+ " folders" ∧
  total_images (r_metadata r) = length paths ∧
  NoDup folders ∧
  (∀ k, k ∈ folders ↔ k ∈ folder_key <$> paths) ∧
  (∀ h, surroundings h = a → get_image_paths (files h) = Ok paths →
        open_write h output_file (Json.dumps 0 (report_to_json r)) = None →
        written (run_effects h) = [(output_file, Json.dumps 0 (report_to_json r))]).
Proof.
  intros Hne r folders.
  assert (r = create_json_output a paths) as Hr by (subst r; by destruct paths).
  subst folders. rewrite Hr. cbn [create_json_output r_images by_folder r_metadata
    total_images summary]. unfold group_by_folder. split_and!.
  - done.
  - unfold Dict.keys. by rewrite length_fmap.
  - done.
  - apply group_keys_NoDup.
  - intros k. by rewrite group_keys, elem_of_first_seen.
  - intros h <- Hscan Hw. rewrite <- Hr in *. by apply main_writes_report.
Qed.

(** C8: the status of a run.  A scan that raises, while resolving the root or
    while walking it, a write of the output file that raises and an append to
    the file named by [GITHUB_OUTPUT] that raises each end the run with
    status 1 and, on the error stream, the one line made of the failure
    marker and the message of the exception; the append raises after the
    output file was written.  A run in which nothing raises writes the
    output file and ends with status 0, whatever the number of images: that
    is, when the write succeeds and [GITHUB_OUTPUT] is unset or the append
    succeeds as well. *)
Theorem exit_status_contract (h : host) :
  (∀ msg, fs_resolve (files h) = Raise msg →
     exit_status h = 1%Z ∧ stderr (run_effects h) = ["❌ 生成失败: " +:+ msg]
     ∧ written (run_effects h) = []) ∧
  (∀ root msg, fs_resolve (files h) = Ok root → fs_rglob (files h) = Raise msg →
     exit_status h = 1%Z ∧ stderr (run_effects h) = ["❌ 生成失败: " +:+ msg]
     ∧ written (run_effects h) = []) ∧
  (∀ paths, get_image_paths (files h) = Ok paths →
     let output := build_output (surroundings h) paths in
     let text := Json.dumps 0 (report_to_json output) in
     (∀ msg, open_write h output_file text = Some msg →
        exit_status h = 1%Z ∧ stderr (run_effects h) = ["❌ 生成失败: " +:+ msg]
        ∧ written (run_effects h) = []) ∧
     (open_write h output_file text = None →
        written (run_effects h) = [(output_file, text)] ∧
        (environ (surroundings h) !! "GITHUB_OUTPUT" = None →
           exit_status h = 0%Z ∧ stderr (run_effects h) = []) ∧
        (∀ sink, environ (surroundings h) !! "GITHUB_OUTPUT" = Some sink →
           (∀ msg, open_append h sink (step_outputs output) = Some msg →
              exit_status h = 1%Z
              ∧ stderr (run_effects h) = ["❌ 生成失败: " +:+ msg]
              ∧ appended (run_effects h) = []) ∧
           (open_append h sink (step_outputs output) = None →
              exit_status h = 0%Z ∧ stderr (run_effects h) = []
              ∧ appended (run_effects h) = [(sink, step_outputs output)])))).
Proof.
  pose proof (main_footprint h) as Hf. unfold diagnostic in Hf. split_and!.
  - intros msg Hres. unfold get_image_paths in Hf. rewrite Hres in Hf.
    by apply footprint_fields in Hf as (? & ? & ? & _).
  - intros root msg Hres Hwalk. unfold get_image_paths in Hf. rewrite Hres, Hwalk in Hf.
    by apply footprint_fields in Hf as (? & ? & ? & _).
  - intros paths Hscan output text. rewrite Hscan in Hf. cbn zeta in Hf.
    fold output in Hf. fold text in Hf. split.
    + intros msg Hw. rewrite Hw in Hf.
      by apply footprint_fields in Hf as (? & ? & ? & _).
    + intros Hw. rewrite Hw in Hf. split_and!.
      * by apply main_writes_report.
      * intros Henv. rewrite Henv in Hf.
        by apply footprint_fields in Hf as (? & ? & _).
      * intros sink Henv. rewrite Henv in Hf. split.
        -- intros msg Ha. rewrite Ha in Hf.
           by apply footprint_fields in Hf as (? & ? & _ & ?).
        -- intros Ha. rewrite Ha in Hf.
           by apply footprint_fields in Hf as (? & ? & ? & ?).
Qed.

(** On a host where the report can be written and the append to the file of
    the step outputs raises, the output file is written and the status is 1. *)
Lemma written_yet_status_one :
  let h := Sample.sink_closed (mount Sample.repo Sample.scenario) Sample.ci_run in
  get_image_paths (files h) = Ok ["a.png"; "a/b.JPG"] ∧
  written (run_effects h)
  = [(output_file,
      Json.dumps 0 (report_to_json (create_json_output Sample.ci_run ["a.png"; "a/b.JPG"])))] ∧
  exit_status h = 1%Z ∧
  stderr (run_effects h) = ["❌ 生成失败: [Errno 13] Permission denied: '/run/step_output'"].
Proof. by vm_compute. Qed.

(** ** Strings: splitting, joining, replacing *)

Lemma app_empty_l (s : string) : "" +:+ s = s.
Proof. done. Qed.

Lemma app_String (a : ascii) (s1 s2 : string) :
  String a s1 +:+ s2 = String a (s1 +:+ s2).
Proof. done. Qed.

Lemma split_no_sep (c : ascii) (w : string) :
  Str.mem c w = false → Str.split c w = [w].
Proof.
  induction w as [|a w IH]; cbn; [done|].
  intros [Ha Hw]%orb_false_iff. rewrite Ha. by rewrite IH.
Qed.

Lemma split_app_sep (c : ascii) (w s : string) :
  Str.mem c w = false → Str.split c (w +:+ String c s) = w :: Str.split c s.
Proof.
  induction w as [|a w IH].
  - intros _. rewrite app_empty_l. cbn. by rewrite Ascii.eqb_refl.
  - cbn. intros [Ha Hw]%orb_false_iff. rewrite app_String. cbn.
    rewrite Ha. by rewrite IH.
Qed.

Lemma join_cons (sep w : string) (ws : list string) :
  ws ≠ [] → Str.join sep (w :: ws) = w +:+ sep +:+ Str.join sep ws.
Proof. by destruct ws. Qed.

Lemma split_join (ws : list string) :
  ws ≠ [] → Forall (λ w, Str.mem Str.slash w = false) ws →
  Str.split Str.slash (Str.join "/" ws) = ws.
Proof.
  induction ws as [|w ws IH]; [done|]. intros _ [Hw Hws]%Forall_cons.
  destruct ws as [|w' ws].
  - cbn. by apply split_no_sep.
  - rewrite join_cons by done. rewrite app_String, app_empty_l.
    rewrite (split_app_sep Str.slash) by done. by rewrite IH.
Qed.

Lemma replace_absent (old new : ascii) (s : string) :
  Str.mem old s = false → Str.replace old new s = s.
Proof.
  induction s as [|a s IH]; cbn; [done|].
  intros [Ha Hs]%orb_false_iff. by rewrite Ha, IH.
Qed.

Lemma mem_app (c : ascii) (s1 s2 : string) :
  Str.mem c (s1 +:+ s2) = Str.mem c s1 || Str.mem c s2.
Proof.
  induction s1 as [|a s1 IH]; [done|].
  rewrite app_String. cbn. by rewrite IH, orb_assoc.
Qed.

Lemma mem_String (c a : ascii) (s : string) :
  Str.mem c (String a s) = Ascii.eqb a c || Str.mem c s.
Proof. done. Qed.

Lemma mem_join (c : ascii) (ws : list string) :
  c ≠ Str.slash → Forall (λ w, Str.mem c w = false) ws →
  Str.mem c (Str.join "/" ws) = false.
Proof.
  intros Hc. induction 1 as [|w ws Hw Hws IH]; [done|].
  destruct ws as [|w' ws]; [done|].
  rewrite join_cons, mem_app, Hw, app_String, app_empty_l, mem_String, IH by done.
  rewrite orb_false_r. apply Ascii.eqb_neq. intros Heq. apply Hc. by rewrite <- Heq.
Qed.

(** ** Directory trees *)

(** Induction over a tree, with the hypothesis for every child of a directory. *)
Lemma node_ind (P : node → Prop) :
  P File → P Special →
  (∀ cs, Forall (λ kv, P kv.2) cs → P (Dir cs)) →
  ∀ n, P n.
Proof.
  intros HFile HSpecial HDir. fix go 1. intros [| |cs]; [done..|].
  apply HDir. induction cs as [|kv cs IH]; constructor; [apply go|apply IH].
Qed.

Lemma rglob_under_Dir (pre : list string) (cs : list (string * node)) :
  rglob_under pre (Dir cs)
  = cs ≫= λ kv, Entry (pre ++ [kv.1]) (node_is_file kv.2)
                  :: rglob_under (pre ++ [kv.1]) kv.2.
Proof.
  induction cs as [|[nm c] cs IH]; [done|].
  cbn [mbind list_bind]. rewrite <- IH. done.
Qed.

Lemma tree_ok_Dir (ok : string → bool) (cs : list (string * node)) :
  tree_ok ok (Dir cs) = true ↔
  NoDup cs.*1 ∧ Forall (λ kv, ok kv.1 = true ∧ tree_ok ok kv.2 = true) cs.
Proof.
  cbn [tree_ok]. rewrite andb_true_iff, bool_decide_eq_true.
  apply and_iff_compat_l.
  induction cs as [|[nm c] cs IH].
  - split; [constructor|done].
  - rewrite Forall_cons, <- IH, !andb_true_iff. cbn. tauto.
Qed.

Lemma tree_lookup_child (cs : list (string * node)) (nm : string) (c : node)
    (rel : list string) :
  NoDup cs.*1 → (nm, c) ∈ cs →
  tree_lookup (Dir cs) (nm :: rel) = tree_lookup c rel.
Proof.
  cbn [tree_lookup]. induction cs as [|[nm' c'] cs IH]; csimpl.
  - by intros _ ?%elem_of_nil.
  - intros [Hnm Hnd]%NoDup_cons [Heq|Hin]%elem_of_cons.
    + simplify_eq. by rewrite String.eqb_refl.
    + destruct (String.eqb_spec nm' nm) as [->|Hne]; [|by apply IH].
      exfalso. apply Hnm. by apply (list_elem_of_fmap_2' fst _ (nm, c)).
Qed.

(** Every entry of the walk is a node of the tree, reached through names of
    the tree. *)
Lemma rglob_under_sound (ok : string → bool) (t : node) :
  ∀ pre e, tree_ok ok t = true → e ∈ rglob_under pre t →
  ∃ rel n, rel ≠ [] ∧ entry_rel e = pre ++ rel
           ∧ Forall (λ nm, ok nm = true) rel
           ∧ tree_lookup t rel = Some n ∧ entry_is_file e = node_is_file n.
Proof.
  induction t as [| |cs IH] using node_ind; intros pre e Hok He;
    [by apply elem_of_nil in He..|].
  apply tree_ok_Dir in Hok as [Hnd Hcs].
  rewrite rglob_under_Dir in He.
  apply list_elem_of_bind in He as ([nm c] & He & Hin). cbn [fst snd] in He.
  rewrite Forall_forall in IH, Hcs.
  destruct (Hcs _ Hin) as [Hnm Hc]. cbn [fst snd] in Hnm, Hc.
  apply elem_of_cons in He as [->|He].
  - exists [nm], c. split_and!; try done.
    + by constructor.
    + by rewrite (tree_lookup_child cs nm c) by done.
  - destruct (IH _ Hin (pre ++ [nm]) e Hc He) as (rel & n & Hne & Hrel & Hall & Hl & Hf).
    exists (nm :: rel), n. split_and!; try done.
    + by rewrite Hrel, <- app_assoc.
    + by constructor.
    + by rewrite (tree_lookup_child cs nm c) by done.
Qed.

(** The walk lists no entry twice. *)
Lemma rglob_under_NoDup (ok : string → bool) (t : node) :
  ∀ pre, tree_ok ok t = true → NoDup (entry_rel <$> rglob_under pre t).
Proof.
  induction t as [| |cs IH] using node_ind; intros pre Hok; [constructor..|].
  assert (Hshape : ∀ cs' e, (∀ kv, kv ∈ cs' → tree_ok ok kv.2 = true) →
            e ∈ (cs' ≫= λ kv, Entry (pre ++ [kv.1]) (node_is_file kv.2)
                               :: rglob_under (pre ++ [kv.1]) kv.2) →
            ∃ nm rest, nm ∈ cs'.*1 ∧ entry_rel e = pre ++ nm :: rest).
  { intros cs' e Hall ([nm c] & He & Hin)%list_elem_of_bind. cbn [fst snd] in He.
    exists nm. apply elem_of_cons in He as [->|He].
    - exists []. split; [|done]. by apply (list_elem_of_fmap_2' fst _ (nm, c)).
    - destruct (rglob_under_sound ok c (pre ++ [nm]) e (Hall _ Hin) He)
        as (rel & _ & _ & -> & _).
      exists rel. split; [by apply (list_elem_of_fmap_2' fst _ (nm, c))|].
      by rewrite <- app_assoc. }
  apply tree_ok_Dir in Hok as [Hnd Hcs]. rewrite rglob_under_Dir.
  induction cs as [|[nm c] cs IHcs]; [constructor|].
  apply Forall_cons in IH as [IHc IH]. apply Forall_cons in Hcs as [[Hnm Hc] Hcs].
  csimpl in Hnd. apply NoDup_cons in Hnd as [Hfresh Hnd]. cbn [fst snd] in *.
  csimpl. rewrite fmap_app. constructor; [|apply NoDup_app; split_and!].
  - rewrite elem_of_app. intros [Hin|Hin].
    + apply list_elem_of_fmap in Hin as (e & Heq & He).
      destruct (rglob_under_sound ok c (pre ++ [nm]) e Hc He) as (rel & _ & Hne & Hrel & _).
      rewrite Hrel, <- (app_nil_r (pre ++ [nm])) in Heq at 1.
      apply app_inv_head in Heq. by subst.
    + apply list_elem_of_fmap in Hin as (e & Heq & He).
      destruct (Hshape cs e) as (nm' & rest & Hnm' & Hrel); [|done|].
      { intros kv Hkv. rewrite Forall_forall in Hcs. by apply Hcs. }
      rewrite Hrel in Heq. apply app_inv_head in Heq. by simplify_eq.
  - by apply IHc.
  - intros rel (e & -> & He)%list_elem_of_fmap (e' & Heq & He')%list_elem_of_fmap.
    destruct (rglob_under_sound ok c (pre ++ [nm]) e Hc He) as (rel & _ & _ & Hrel & _).
    destruct (Hshape cs e') as (nm' & rest & Hnm' & Hrel'); [|done|].
    { intros kv Hkv. rewrite Forall_forall in Hcs. by apply Hcs. }
    rewrite Hrel, Hrel', <- app_assoc in Heq. apply app_inv_head in Heq.
    cbn in Heq. by simplify_eq.
  - by apply IHcs.
Qed.

Lemma tree_lookup_cons (cs : list (string * node)) (nm : string) (rel : list string)
    (n : node) :
  tree_lookup (Dir cs) (nm :: rel) = Some n →
  ∃ c, (nm, c) ∈ cs ∧ tree_lookup c rel = Some n.
Proof.
  cbn [tree_lookup]. induction cs as [|[nm' c'] cs IH]; [done|].
  destruct (String.eqb_spec nm' nm) as [->|Hne].
  - intros Hl. exists c'. split; [by left|done].
  - intros (c & Hin & Hl)%IH. exists c. split; [by right|done].
Qed.

(** Every node below the root is an entry of the walk. *)
Lemma rglob_under_complete (rel : list string) :
  ∀ t pre n, rel ≠ [] → tree_lookup t rel = Some n →
  Entry (pre ++ rel) (node_is_file n) ∈ rglob_under pre t.
Proof.
  induction rel as [|nm rel IH]; [done|]. intros t pre n _ Hl.
  destruct t as [| |cs]; [done..|].
  apply tree_lookup_cons in Hl as (c & Hin & Hl).
  rewrite rglob_under_Dir. apply list_elem_of_bind. exists (nm, c).
  split; [|done]. cbn [fst snd]. destruct rel as [|nm' rel].
  - cbn in Hl. simplify_eq. by left.
  - right. rewrite (cons_middle nm), app_assoc. by apply IH.
Qed.

(** ** The path collector *)

Lemma last_app_r {A} (l1 l2 : list A) (d : A) :
  l2 ≠ [] → List.last (l1 ++ l2) d = List.last l2 d.
Proof.
  intros Hne. induction l1 as [|x l1 IH]; [done|].
  cbn [app]. rewrite <- IH. cbn. destruct (l1 ++ l2) eqn:Heq; [|done].
  by apply app_eq_nil in Heq as [_ ?].
Qed.

Lemma parts_under (root_path : PurePath.t) (rel : list string) :
  PurePath.parts (PurePath.mk (PurePath.root root_path) (PurePath.tail root_path ++ rel))
  = PurePath.parts root_path ++ rel.
Proof. unfold PurePath.parts. cbn. by destruct (String.eqb _ _). Qed.

(** When an entry is kept, and as what. *)
Lemma collect_entry_Some (root_path : PurePath.t) (e : entry) (s : string) :
  collect_entry root_path e = Some s ↔
  Forall (λ part, part ∉ ignore_dirs) (PurePath.parts root_path ++ entry_rel e) ∧
  Str.startswith "." (List.last (PurePath.tail root_path ++ entry_rel e) "") = false ∧
  entry_is_file e = true ∧
  Str.lower (PurePath.suffix_of_name
               (List.last (PurePath.tail root_path ++ entry_rel e) "")) ∈ image_extensions ∧
  s = Str.replace Str.backslash Str.slash (PurePath.str (PurePath.mk "" (entry_rel e))).
Proof.
  unfold collect_entry. rewrite parts_under.
  unfold PurePath.suffix, PurePath.name. cbn [PurePath.tail].
  destruct (existsb _ _) eqn:Hig.
  { split; [done|]. intros (Hall & _). exfalso.
    apply existsb_exists in Hig as (part & Hin & Hpart%bool_decide_eq_true).
    rewrite Forall_forall in Hall. eapply Hall; [|done]. by apply list_elem_of_In. }
  assert (Forall (λ part, part ∉ ignore_dirs) (PurePath.parts root_path ++ entry_rel e))
    as Hall.
  { apply Forall_forall. intros part Hin Hpart.
    apply not_true_iff_false in Hig. apply Hig, existsb_exists.
    exists part. split; [by apply list_elem_of_In|by apply bool_decide_eq_true]. }
  destruct (Str.startswith _ _); [split; [done|by intros (_ & ? & _)]|].
  destruct (entry_is_file e); [|split; [done|by intros (_ & _ & ? & _)]].
  case_bool_decide as Hext.
  - split; [by intros [= <-]|by intros (_ & _ & _ & _ & ->)].
  - split; [done|by intros (_ & _ & _ & ? & _)].
Qed.

Lemma elem_of_collect (root_path : PurePath.t) (walk : list entry) (s : string) :
  s ∈ collect root_path walk ↔ ∃ e, e ∈ walk ∧ collect_entry root_path e = Some s.
Proof.
  unfold collect, sorted. rewrite merge_sort_Permutation. apply list_elem_of_omap.
Qed.

Lemma collect_sorted (root_path : PurePath.t) (walk : list entry) :
  Sorted String.le (collect root_path walk).
Proof. apply (Sorted_merge_sort _). Qed.

(** The order in which the host lists the entries does not matter. *)
Lemma collect_order (root_path : PurePath.t) (walk1 walk2 : list entry) :
  walk1 ≡ₚ walk2 → collect root_path walk1 = collect root_path walk2.
Proof.
  intros Hp. apply (Sorted_unique String.le); [apply collect_sorted..|].
  unfold collect, sorted. rewrite !merge_sort_Permutation. by rewrite Hp.
Qed.

Lemma get_image_paths_shows (fs : filesystem) (root_path : PurePath.t) (tree : node) :
  shows fs root_path tree →
  get_image_paths fs = Ok (collect root_path (rglob tree)).
Proof.
  intros (Hres & walk & Hwalk & Hp). unfold get_image_paths.
  rewrite Hres, Hwalk. by rewrite (collect_order _ _ _ Hp).
Qed.

(** ** Paths made of plain names *)

Lemma valid_name_spec (nm : string) :
  valid_name nm = true → nm ≠ "" ∧ nm ≠ "." ∧ Str.mem Str.slash nm = false.
Proof.
  unfold valid_name. rewrite !andb_true_iff, !negb_true_iff.
  intros [[[H1 H2] _] H4]. by rewrite !String.eqb_neq in *.
Qed.

Lemma plain_name_spec (nm : string) :
  plain_name nm = true → valid_name nm = true ∧ Str.mem Str.backslash nm = false.
Proof. unfold plain_name. by rewrite andb_true_iff, negb_true_iff. Qed.

Lemma splitroot_relative (a : ascii) (s : string) :
  Ascii.eqb a Str.slash = false → PurePath.splitroot (String a s) = ("", String a s).
Proof.
  destruct a as [[] [] [] [] [] [] [] []]; try done.
Qed.

(** A join of valid names starts with a character that is not the separator. *)
Lemma join_head (rel : list string) :
  rel ≠ [] → Forall (λ nm, valid_name nm = true) rel →
  ∃ a s, Str.join "/" rel = String a s ∧ Ascii.eqb a Str.slash = false.
Proof.
  destruct rel as [|nm rel]; [done|]. intros _ [Hnm _]%Forall_cons.
  apply valid_name_spec in Hnm as (Hne & _ & Hslash).
  destruct nm as [|a nm]; [done|]. rewrite mem_String in Hslash.
  apply orb_false_iff in Hslash as [Ha _]. exists a.
  destruct rel as [|nm' rel]; [by exists nm|].
  rewrite join_cons, app_String by done. by eexists.
Qed.

Lemma filter_components (rel : list string) :
  Forall (λ nm, valid_name nm = true) rel →
  List.filter (λ x, negb (String.eqb x "") && negb (String.eqb x ".")) rel = rel.
Proof.
  induction 1 as [|nm l Hnm Hl IH]; [done|]. cbn [List.filter].
  apply valid_name_spec in Hnm as (H1 & H2 & _).
  apply String.eqb_neq in H1, H2. by rewrite H1, H2, IH.
Qed.

Lemma Path_join (rel : list string) :
  rel ≠ [] → Forall (λ nm, valid_name nm = true) rel →
  PurePath.Path (Str.join "/" rel) = PurePath.mk "" rel.
Proof.
  intros Hne Hall. destruct (join_head rel Hne Hall) as (a & s & Hs & Ha).
  unfold PurePath.Path. rewrite Hs, splitroot_relative by done. rewrite <- Hs.
  rewrite split_join; [|done|].
  - by rewrite filter_components.
  - eapply Forall_impl; [done|]. by intros nm (_ & _ & ?)%valid_name_spec.
Qed.

Lemma str_join (rel : list string) :
  rel ≠ [] → Forall (λ nm, valid_name nm = true) rel →
  PurePath.str (PurePath.mk "" rel) = Str.join "/" rel.
Proof.
  intros Hne Hall. destruct (join_head rel Hne Hall) as (a & s & Hs & Ha).
  unfold PurePath.str. cbn [PurePath.root PurePath.tail].
  by rewrite app_empty_l, Hs.
Qed.

Lemma join_inj (rel1 rel2 : list string) :
  rel1 ≠ [] → Forall (λ nm, valid_name nm = true) rel1 →
  rel2 ≠ [] → Forall (λ nm, valid_name nm = true) rel2 →
  Str.join "/" rel1 = Str.join "/" rel2 → rel1 = rel2.
Proof.
  intros ? H1 ? H2 Heq. apply Path_join in H1, H2; [|done..].
  rewrite Heq in H1. congruence.
Qed.

(** What the collector answers for an entry made of plain names. *)
Lemma plain_path (rel : list string) :
  rel ≠ [] → Forall (λ nm, plain_name nm = true) rel →
  Str.replace Str.backslash Str.slash (PurePath.str (PurePath.mk "" rel))
  = Str.join "/" rel.
Proof.
  intros Hne Hall.
  assert (Forall (λ nm, valid_name nm = true) rel) as Hvalid.
  { eapply Forall_impl; [done|]. by intros nm [? _]%plain_name_spec. }
  rewrite str_join by done. apply replace_absent, mem_join; [done|].
  eapply Forall_impl; [exact Hall|]. by intros nm [_ ?]%plain_name_spec.
Qed.

Lemma NoDup_omap_by {A B C} (f : A → option B) (g : A → C) (l : list A) :
  NoDup (g <$> l) →
  (∀ x y s, x ∈ l → y ∈ l → f x = Some s → f y = Some s → g x = g y) →
  NoDup (omap f l).
Proof.
  induction l as [|x l IH]; csimpl; [constructor|].
  intros [Hx Hnd]%NoDup_cons Hinj.
  assert (NoDup (omap f l)) as Hl.
  { apply IH; [done|]. intros y z s Hy Hz. apply Hinj; by right. }
  destruct (f x) as [s|] eqn:Hfx; [|done]. constructor; [|done].
  intros (y & Hy & Hfy)%list_elem_of_omap. apply Hx.
  rewrite (Hinj x y s); [by apply list_elem_of_fmap_2|by left|by right|done..].
Qed.

(** ** The folder key of a relative path *)

Lemma join_not_dot (rel : list string) :
  rel ≠ [] → Forall (λ nm, valid_name nm = true) rel → Str.join "/" rel ≠ ".".
Proof.
  intros Hne Hall Heq. apply Path_join in Hall; [|done].
  rewrite Heq in Hall. by injection Hall as <-.
Qed.

(** A file of the root directory is keyed by the sentinel. *)
Lemma folder_key_top (nm : string) : valid_name nm = true → folder_key nm = "root".
Proof.
  intros Hnm. unfold folder_key.
  change (PurePath.Path nm) with (PurePath.Path (Str.join "/" [nm])).
  by rewrite Path_join by (by repeat constructor).
Qed.

(** A file of a directory below the root is keyed by the path of the directory. *)
Lemma folder_key_nested (rel : list string) (nm : string) :
  rel ≠ [] → Forall (λ x, valid_name x = true) rel → valid_name nm = true →
  folder_key (Str.join "/" (rel ++ [nm])) = Str.join "/" rel.
Proof.
  intros Hne Hrel Hnm. unfold folder_key.
  rewrite Path_join; [|by destruct rel|by apply Forall_app; split; [|constructor]].
  unfold PurePath.parent. cbn [PurePath.tail PurePath.root].
  destruct (rel ++ [nm]) eqn:Heq; [by destruct rel|]. rewrite <- Heq.
  rewrite removelast_last, str_join by done.
  destruct (String.eqb_spec (Str.join "/" rel) ".") as [Hdot|_]; [|done].
  by apply join_not_dot in Hdot.
Qed.

(** C6: [group_by_folder] keys a path by the text of its parent directory,
    with the sentinel in place of the root (so a file of the root directory
    has the key [root], and a file deeper in the tree the path of its
    directory); a key enters the dictionary when it is first met, and each
    path is appended to the list of its key; so the keys stand in order of
    first appearance and each list holds the paths of its key in input order,
    sorted when the input is. *)
Theorem group_by_folder_rows (paths : list string) :
  let g := group_by_folder paths in
  (∀ p, folder_key p =
          let parent := PurePath.str (PurePath.parent (PurePath.Path p)) in
          if String.eqb parent "." then "root" else parent) ∧
  (∀ nm, valid_name nm = true → folder_key nm = "root") ∧
  (∀ rel nm, rel ≠ [] → Forall (λ x, valid_name x = true) rel → valid_name nm = true →
             folder_key (Str.join "/" (rel ++ [nm])) = Str.join "/" rel) ∧
  (∀ x, group_by_folder (paths ++ [x]) =
          if decide (folder_key x ∈ Dict.keys g)
          then Dict.alter (λ l, l ++ [x]) (folder_key x) g
          else g ++ [(folder_key x, [x])]) ∧
  Dict.keys g = first_seen (folder_key <$> paths) ∧
  NoDup (Dict.keys g) ∧
  (∀ k v, (k, v) ∈ g ↔
          k ∈ folder_key <$> paths ∧ v = filter (λ p, folder_key p = k) paths) ∧
  (Sorted String.le paths → ∀ k v, (k, v) ∈ g → Sorted String.le v).
Proof.
  cbn zeta. unfold group_by_folder. split_and!.
  - done.
  - apply folder_key_top.
  - apply folder_key_nested.
  - intros x. rewrite group_snoc. unfold group_step.
    destruct (Dict.contains (folder_key x) (group folder_key paths)) eqn:Hc.
    + apply contains_elem_of in Hc. by rewrite decide_True.
    + apply contains_false in Hc. rewrite decide_False by done.
      by rewrite set_fresh, alter_last.
  - apply group_keys.
  - apply group_keys_NoDup.
  - intros k v. apply elem_of_group.
  - intros Hs k v [_ ->]%elem_of_group. by apply Sorted_filter; [apply _|].
Qed.

Lemma group_by_folder_witness :
  let paths := ["a.png"; "a/b.JPG"; "a/c.png"; "z.gif"] in
  Sorted String.le paths ∧
  group_by_folder paths = [("root", ["a.png"; "z.gif"]); ("a", ["a/b.JPG"; "a/c.png"])] ∧
  (∀ k v, (k, v) ∈ group_by_folder paths → Sorted String.le v).
Proof.
  intros paths.
  assert (Sorted String.le paths) as Hs by (repeat constructor).
  split_and!; [done..|].
  destruct (group_by_folder_rows paths) as (_ & _ & _ & _ & _ & _ & _ & Hsorted).
  by apply Hsorted.
Defined.

(** ** The text of a report *)

Lemma str_app_assoc (s1 s2 s3 : string) : (s1 +:+ s2) +:+ s3 = s1 +:+ s2 +:+ s3.
Proof. induction s1 as [|a s1 IH]; [done|]. by rewrite !app_String, IH. Qed.

(** The serialized report is a fixed opening, the timestamp, and a text in
    which the timestamp takes no part. *)
Lemma dumps_report (r : report) :
  Json.dumps 0 (report_to_json r)
  = report_head +:+ Json.encode_string (generated_at (r_metadata r)) +:+ report_tail r.
Proof.
  unfold report_to_json, report_head, report_tail.
  cbn [Json.dumps map fst snd Str.join String.concat].
  by rewrite !str_app_assoc.
Qed.

Lemma report_tail_stamp (stamp : string) (r : report) :
  report_tail (with_generated_at stamp r) = report_tail r.
Proof. done. Qed.

(** ** The collector on trees of plain names *)

(** On a tree whose names are valid and free of backslashes, every collected
    path is the slash-joined list of components of a regular file of the
    tree, with an image extension, outside the ignored directories and not
    hidden. *)
Lemma collect_plain_elem (root_path : PurePath.t) (tree : node) (s : string) :
  tree_ok plain_name tree = true →
  s ∈ collect root_path (rglob tree) →
  ∃ rel, rel ≠ [] ∧ Forall (λ nm, plain_name nm = true) rel
         ∧ s = Str.join "/" rel
         ∧ tree_lookup tree rel = Some File
         ∧ Forall (λ part, part ∉ ignore_dirs) rel
         ∧ Str.startswith "." (List.last rel "") = false
         ∧ Str.lower (PurePath.suffix_of_name (List.last rel "")) ∈ image_extensions.
Proof.
  intros Hok (e & He & Hs)%elem_of_collect.
  destruct (rglob_under_sound plain_name tree [] e Hok He)
    as (rel & n & Hne & Hrel & Hplain & Hl & Hfile).
  cbn [app] in Hrel. apply collect_entry_Some in Hs as (Hig & Hdot & Hf & Hext & ->).
  rewrite Hrel in *. rewrite last_app_r in Hdot, Hext by done.
  exists rel. split_and!; try done.
  - by apply plain_path.
  - rewrite Hl. f_equal. rewrite Hf in Hfile. by destruct n.
  - by apply Forall_app in Hig as [_ ?].
Qed.

Lemma collect_plain_NoDup (root_path : PurePath.t) (tree : node) :
  tree_ok plain_name tree = true → NoDup (collect root_path (rglob tree)).
Proof.
  intros Hok. unfold collect, sorted. rewrite merge_sort_Permutation.
  apply (NoDup_omap_by _ entry_rel); [by apply (rglob_under_NoDup plain_name)|].
  intros e1 e2 s He1 He2 Hs1 Hs2.
  destruct (rglob_under_sound plain_name tree [] e1 Hok He1)
    as (rel1 & _ & Hne1 & Hrel1 & Hplain1 & _).
  destruct (rglob_under_sound plain_name tree [] e2 Hok He2)
    as (rel2 & _ & Hne2 & Hrel2 & Hplain2 & _).
  cbn [app] in Hrel1, Hrel2.
  apply collect_entry_Some in Hs1 as (_ & _ & _ & _ & Hs1).
  apply collect_entry_Some in Hs2 as (_ & _ & _ & _ & Hs2).
  rewrite Hrel1, plain_path in Hs1 by done. rewrite Hrel2, plain_path in Hs2 by done.
  rewrite Hrel1, Hrel2. subst s.
  apply join_inj; try done;
    (eapply Forall_impl; [eassumption|]; by intros nm [? _]%plain_name_spec).
Qed.

(** X2: the collector on a tree of plain names: the list is sorted and free of
    repetition, and each of its paths parses back to the components of a
    regular file of the tree, carries an image extension, has no ignored
    component and no hidden file name, and so never falls under the
    [no_extension] key. *)
Theorem collector_on_plain_trees (fs : filesystem) (root_path : PurePath.t) (tree : node) :
  shows fs root_path tree → tree_ok plain_name tree = true →
  ∃ paths,
    get_image_paths fs = Ok paths ∧
    Sorted String.le paths ∧ NoDup paths ∧
    (∀ s, s ∈ paths →
       let p := PurePath.Path s in
       s = PurePath.str p ∧ PurePath.root p = "" ∧
       tree_lookup tree (PurePath.tail p) = Some File ∧
       Str.lower (PurePath.suffix p) ∈ image_extensions ∧
       Forall (λ part, part ∉ ignore_dirs) (PurePath.parts p) ∧
       Str.startswith "." (PurePath.name p) = false ∧
       extension_key s ∈ image_extensions) ∧
    "no_extension" ∉ Dict.keys (group_by_extension paths).
Proof.
  intros Hshows Hok. exists (collect root_path (rglob tree)).
  assert (∀ s, s ∈ collect root_path (rglob tree) →
            let p := PurePath.Path s in
            s = PurePath.str p ∧ PurePath.root p = "" ∧
            tree_lookup tree (PurePath.tail p) = Some File ∧
            Str.lower (PurePath.suffix p) ∈ image_extensions ∧
            Forall (λ part, part ∉ ignore_dirs) (PurePath.parts p) ∧
            Str.startswith "." (PurePath.name p) = false ∧
            extension_key s ∈ image_extensions) as Helem.
  { intros s Hs.
    destruct (collect_plain_elem _ _ _ Hok Hs)
      as (rel & Hne & Hplain & -> & Hl & Hig & Hdot & Hext).
    assert (Forall (λ nm, valid_name nm = true) rel) as Hvalid.
    { eapply Forall_impl; [exact Hplain|]. by intros nm [? _]%plain_name_spec. }
    cbn zeta. rewrite Path_join by done.
    unfold extension_key. rewrite Path_join by done.
    unfold PurePath.suffix, PurePath.name, PurePath.parts. cbn [PurePath.root PurePath.tail].
    split_and!; try done.
    - by rewrite str_join.
    - destruct (String.eqb_spec (Str.lower (PurePath.suffix_of_name (List.last rel ""))) "")
        as [Heq|_]; [|done].
      rewrite Heq in Hext. apply (bool_decide_eq_true_2 _) in Hext. by vm_compute in Hext. }
  split_and!.
  - by apply get_image_paths_shows.
  - apply collect_sorted.
  - by apply collect_plain_NoDup.
  - done.
  - unfold group_by_extension. rewrite group_keys, elem_of_first_seen.
    intros (s & Hkey & Hs)%list_elem_of_fmap.
    destruct (Helem s Hs) as (_ & _ & _ & _ & _ & _ & Hext).
    rewrite <- Hkey in Hext. apply (bool_decide_eq_true_2 _) in Hext. by vm_compute in Hext.
Qed.

(** ** The scenario of the specification *)

Example scenario_paths :
  get_image_paths (mount Sample.repo Sample.scenario) = Ok ["a.png"; "a/b.JPG"].
Proof. reflexivity. Qed.

Example scenario_folders :
  group_by_folder ["a.png"; "a/b.JPG"] = [("root", ["a.png"]); ("a", ["a/b.JPG"])].
Proof. reflexivity. Qed.

Example scenario_extensions :
  group_by_extension ["a.png"; "a/b.JPG"] = [(".png", ["a.png"]); (".jpg", ["a/b.JPG"])].
Proof. reflexivity. Qed.

Example empty_directory_run :
  footprint (Sample.writable (mount Sample.repo (Dir [])) Sample.first_run)
  = (0%Z, [],
     [(output_file,
       Json.dumps 0 (report_to_json (empty_output Sample.first_run)))], []).
Proof. reflexivity. Qed.

(** The groups follow the order in which their keys first appear, so put end
    to end they list the paths in another order than the input. *)
Example groups_end_to_end :
  concat (Dict.values (group_by_folder ["a.png"; "b/c.png"; "d.png"]))
  = ["a.png"; "d.png"; "b/c.png"].
Proof. reflexivity. Qed.

Example scenario_is_plain : tree_ok plain_name Sample.scenario = true.
Proof. reflexivity. Qed.

(** ** File names with a backslash *)

(** C4: the tree [Sample.clash] is well formed (its names are valid and no
    directory lists a name twice), and the collector answers the same string
    twice for it: once for [b.png] inside [a], once for the file of the root
    directory whose name holds a backslash, which is no file at that path. *)
Theorem backslash_name_collides :
  tree_ok valid_name Sample.clash = true ∧
  get_image_paths (mount Sample.repo Sample.clash) = Ok ["a/b.png"; "a/b.png"] ∧
  collect_entry Sample.repo (Entry ["a\b.png"] true) = Some "a/b.png" ∧
  tree_lookup Sample.clash ["a\b.png"] = Some File ∧
  length (filter (λ e, collect_entry Sample.repo e = Some "a/b.png")
                 (rglob Sample.clash)) = 2.
Proof. by vm_compute. Qed.

(** C5: for the well-formed tree [Sample.leak] the collector returns a path
    with the component [out], which is an ignored name, and a path whose
    file name begins with a dot. *)
Theorem backslash_name_leaks :
  tree_ok valid_name Sample.leak = true ∧
  get_image_paths (mount Sample.repo Sample.leak) = Ok ["out/x.png"; "x/.png"] ∧
  PurePath.parts (PurePath.Path "out/x.png") = ["out"; "x.png"] ∧
  bool_decide ("out" ∈ ignore_dirs) = true ∧
  PurePath.name (PurePath.Path "x/.png") = ".png" ∧
  Str.startswith "." (PurePath.name (PurePath.Path "x/.png")) = true.
Proof. by vm_compute. Qed.

(** C7: [group_by_extension] keys a path by its lowercased suffix and by the
    sentinel when there is none, in order of first appearance; yet for the
    well-formed tree [Sample.lost_extension] the path the collector returns
    has no suffix and is grouped under the sentinel. *)
Theorem backslash_name_loses_extension :
  (∀ p, extension_key p =
          let ext := Str.lower (PurePath.suffix (PurePath.Path p)) in
          if String.eqb ext "" then "no_extension" else ext) ∧
  (∀ paths, Dict.keys (group_by_extension paths) = first_seen (extension_key <$> paths)) ∧
  tree_ok valid_name Sample.lost_extension = true ∧
  get_image_paths (mount Sample.repo Sample.lost_extension) = Ok ["x/.png"] ∧
  group_by_extension ["x/.png"] = [("no_extension", ["x/.png"])].
Proof.
  split_and!; [done|intros paths; apply group_keys|by vm_compute..].
Qed.

(** ** Hidden directories *)

(** C10: an image inside a directory whose name begins with a dot, and is
    not an ignored name, is collected: only the last component of an entry is
    tested for a leading dot, and the walk enters every directory. *)
Theorem dot_directory_is_walked (fs : filesystem) (root_path : PurePath.t) (dir : string) :
  Str.startswith "." dir = true → dir ∉ ignore_dirs → plain_name dir = true →
  Forall (λ part, part ∉ ignore_dirs) (PurePath.parts root_path) →
  shows fs root_path (Dir [(dir, Dir [("a.png", File)])]) →
  get_image_paths fs = Ok [dir +:+ "/a.png"].
Proof.
  intros Hdot Hdir Hplain Hroot Hshows.
  rewrite (get_image_paths_shows _ _ _ Hshows).
  unfold collect, rglob. cbn [rglob_under app node_is_file]. f_equal.
  assert (collect_entry root_path (Entry [dir] false) = None) as Hskipped.
  { destruct (collect_entry _ _) as [s|] eqn:Hs; [|done].
    by apply collect_entry_Some in Hs as (_ & _ & ? & _). }
  assert (collect_entry root_path (Entry [dir; "a.png"] true) = Some (dir +:+ "/a.png"))
    as Hkept.
  { apply collect_entry_Some. cbn [entry_rel entry_is_file].
    rewrite last_app_r by done. split_and!; try done.
    - apply Forall_app. split; [done|]. repeat constructor; [done|].
      by intros ?%(bool_decide_eq_true_2 _).
    - by apply (bool_decide_eq_true_1 _).
    - rewrite plain_path; [done..|]. by repeat constructor. }
  cbn [omap list_omap]. by rewrite Hskipped, Hkept.
Qed.

Lemma dot_directory_witness :
  Str.startswith "." ".hidden" = true ∧ (".hidden" ∉ ignore_dirs) ∧
  tree_lookup Sample.hidden_directory [".hidden"; "a.png"] = Some File ∧
  get_image_paths (mount Sample.repo Sample.hidden_directory) = Ok [".hidden/a.png"].
Proof.
  split_and!; [done|by intros ?%(bool_decide_eq_true_2 _)|done|].
  apply (dot_directory_is_walked _ Sample.repo ".hidden");
    [done|by intros ?%(bool_decide_eq_true_2 _)|done| |].
  - repeat constructor; by intros ?%(bool_decide_eq_true_2 _).
  - split; [done|]. by eexists.
Defined.

(** ** Running twice *)

Lemma build_output_stamp (a1 a2 : ambient) (paths : list string) :
  environ a1 = environ a2 →
  build_output a1 paths = with_generated_at (now_isoformat a1) (build_output a2 paths).
Proof.
  intros Henv. destruct paths;
    unfold build_output, with_generated_at, create_json_output, empty_output, environ_get;
    cbn; by rewrite Henv.
Qed.

Lemma build_output_generated_at (a : ambient) (paths : list string) :
  generated_at (r_metadata (build_output a paths)) = now_isoformat a.
Proof. by destruct paths. Qed.

(** C9: two runs on hosts that show the same tree at the same root, in
    whatever order each host lists it, and that have the same environment
    variables, collect the same paths and build reports that differ in the
    timestamp only; the texts they write are equal outside the encoded
    timestamp, key order included. *)
Theorem rerun_is_deterministic (h1 h2 : host) (root_path : PurePath.t) (tree : node) :
  shows (files h1) root_path tree →
  shows (files h2) root_path tree →
  environ (surroundings h1) = environ (surroundings h2) →
  ∃ paths,
    get_image_paths (files h1) = Ok paths ∧
    get_image_paths (files h2) = Ok paths ∧
    let r1 := build_output (surroundings h1) paths in
    let r2 := build_output (surroundings h2) paths in
    r1 = with_generated_at (now_isoformat (surroundings h1)) r2 ∧
    (∃ rest,
       Json.dumps 0 (report_to_json r1)
       = report_head +:+ Json.encode_string (now_isoformat (surroundings h1)) +:+ rest ∧
       Json.dumps 0 (report_to_json r2)
       = report_head +:+ Json.encode_string (now_isoformat (surroundings h2)) +:+ rest) ∧
    (open_write h1 output_file (Json.dumps 0 (report_to_json r1)) = None →
     written (run_effects h1) = [(output_file, Json.dumps 0 (report_to_json r1))]) ∧
    (open_write h2 output_file (Json.dumps 0 (report_to_json r2)) = None →
     written (run_effects h2) = [(output_file, Json.dumps 0 (report_to_json r2))]).
Proof.
  intros Hs1 Hs2 Henv. exists (collect root_path (rglob tree)).
  pose proof (get_image_paths_shows _ _ _ Hs1) as Hp1.
  pose proof (get_image_paths_shows _ _ _ Hs2) as Hp2.
  split; [done|]. split; [done|]. cbn zeta. split_and!.
  - by apply build_output_stamp.
  - exists (report_tail (build_output (surroundings h2) (collect root_path (rglob tree)))).
    rewrite !dumps_report, !build_output_generated_at. split; [|done].
    by rewrite (build_output_stamp _ (surroundings h2)), report_tail_stamp.
  - intros Hw. by apply main_writes_report.
  - intros Hw. by apply main_writes_report.
Qed.

Lemma rerun_witness :
  let h1 := Sample.writable (mount Sample.repo Sample.scenario) Sample.first_run in
  let h2 := Sample.writable Sample.scenario_backwards Sample.second_run in
  shows (files h1) Sample.repo Sample.scenario ∧
  shows (files h2) Sample.repo Sample.scenario ∧
  fs_rglob (files h1) ≠ fs_rglob (files h2) ∧
  ∃ paths rest,
    get_image_paths (files h1) = Ok paths ∧
    get_image_paths (files h2) = Ok paths ∧
    written (run_effects h1)
    = [(output_file, report_head +:+ Json.encode_string "2024-05-01T10:00:00.000001" +:+ rest)] ∧
    written (run_effects h2)
    = [(output_file, report_head +:+ Json.encode_string "2024-05-01T10:05:30.250000" +:+ rest)].
Proof.
  intros h1 h2.
  assert (shows (files h1) Sample.repo Sample.scenario) as Hs1.
  { split; [done|]. by eexists. }
  assert (shows (files h2) Sample.repo Sample.scenario) as Hs2.
  { split; [done|]. eexists. split; [done|]. apply reverse_Permutation. }
  split_and!; [done..|].
  destruct (rerun_is_deterministic h1 h2 Sample.repo Sample.scenario Hs1 Hs2 eq_refl)
    as (paths & Hp1 & Hp2 & _ & (rest & Ht1 & Ht2) & Hw1 & Hw2).
  exists paths, rest. split_and!; [done..| |].
  - by rewrite (Hw1 eq_refl), Ht1.
  - by rewrite (Hw2 eq_refl), Ht2.
Defined.

(** ** Concrete runs *)

Lemma empty_scan_witness :
  let h := Sample.writable (mount Sample.repo (Dir [])) Sample.first_run in
  get_image_paths (files h) = Ok [] ∧
  total_images (r_metadata (empty_output Sample.first_run)) = 0 ∧
  summary (empty_output Sample.first_run) = "No image files found" ∧
  written (run_effects h)
  = [(output_file, Json.dumps 0 (report_to_json (empty_output Sample.first_run)))].
Proof.
  intros h. split; [done|].
  destruct (empty_scan_writes_the_empty_report h eq_refl) as (_ & Hn & Hs & _ & Hw & _).
  split_and!; [exact Hn|exact Hs|by apply Hw].
Defined.

Lemma summary_witness :
  ["a.png"; "a/b.JPG"] ≠ [] ∧
  summary (build_output Sample.first_run ["a.png"; "a/b.JPG"])
  = "Found 2 image files across 2 folders".
Proof.
  assert (["a.png"; "a/b.JPG"] ≠ []) as Hne by done. split; [done|].
  destruct (summary_counts_images_and_folders Sample.first_run _ Hne) as (_ & Hs & _).
  by rewrite Hs.
Defined.

Lemma exit_status_witness :
  let scan := mount Sample.repo Sample.scenario in
  let broken := {| fs_resolve := Ok Sample.repo;
                   fs_rglob := Raise "[Errno 5] Input/output error: 'a'" |} in
  exit_status (Sample.writable scan Sample.first_run) = 0%Z ∧
  exit_status (Sample.writable (mount Sample.repo (Dir [])) Sample.first_run) = 0%Z ∧
  exit_status (Sample.writable scan Sample.ci_run) = 0%Z ∧
  exit_status (Sample.read_only scan Sample.first_run) = 1%Z ∧
  stderr (run_effects (Sample.read_only scan Sample.first_run))
  = ["❌ 生成失败: [Errno 13] Permission denied: 'image_paths.json'"] ∧
  exit_status (Sample.writable broken Sample.first_run) = 1%Z ∧
  stderr (run_effects (Sample.writable broken Sample.first_run))
  = ["❌ 生成失败: [Errno 5] Input/output error: 'a'"] ∧
  exit_status (Sample.sink_closed scan Sample.ci_run) = 1%Z ∧
  stderr (run_effects (Sample.sink_closed scan Sample.ci_run))
  = ["❌ 生成失败: [Errno 13] Permission denied: '/run/step_output'"].
Proof.
  intros scan broken. split_and!.
  - destruct (exit_status_contract (Sample.writable scan Sample.first_run))
      as (_ & _ & H).
    destruct (H _ eq_refl) as (_ & Hw). destruct (Hw eq_refl) as (_ & Hq & _).
    by destruct (Hq eq_refl).
  - destruct (exit_status_contract
                (Sample.writable (mount Sample.repo (Dir [])) Sample.first_run))
      as (_ & _ & H).
    destruct (H _ eq_refl) as (_ & Hw). destruct (Hw eq_refl) as (_ & Hq & _).
    by destruct (Hq eq_refl).
  - destruct (exit_status_contract (Sample.writable scan Sample.ci_run))
      as (_ & _ & H).
    destruct (H _ eq_refl) as (_ & Hw). destruct (Hw eq_refl) as (_ & _ & Hs).
    destruct (Hs _ eq_refl) as (_ & Ha). by destruct (Ha eq_refl).
  - destruct (exit_status_contract (Sample.read_only scan Sample.first_run))
      as (_ & _ & H).
    destruct (H _ eq_refl) as (Hw & _). by destruct (Hw _ eq_refl).
  - destruct (exit_status_contract (Sample.read_only scan Sample.first_run))
      as (_ & _ & H).
    destruct (H _ eq_refl) as (Hw & _). by destruct (Hw _ eq_refl) as (_ & ? & _).
  - destruct (exit_status_contract (Sample.writable broken Sample.first_run))
      as (_ & H & _).
    by destruct (H _ _ eq_refl eq_refl).
  - destruct (exit_status_contract (Sample.writable broken Sample.first_run))
      as (_ & H & _).
    by destruct (H _ _ eq_refl eq_refl) as (_ & ? & _).
  - destruct (exit_status_contract (Sample.sink_closed scan Sample.ci_run))
      as (_ & _ & H).
    destruct (H _ eq_refl) as (_ & Hw). destruct (Hw eq_refl) as (_ & _ & Hs).
    destruct (Hs _ eq_refl) as (Ha & _). by destruct (Ha _ eq_refl).
  - destruct (exit_status_contract (Sample.sink_closed scan Sample.ci_run))
      as (_ & _ & H).
    destruct (H _ eq_refl) as (_ & Hw). destruct (Hw eq_refl) as (_ & _ & Hs).
    destruct (Hs _ eq_refl) as (Ha & _). by destruct (Ha _ eq_refl) as (_ & ? & _).
Defined.

(** * Further properties of the script *)

(** ** The collector on every well-formed tree *)

Lemma tree_lookup_names (ok : string → bool) (rel : list string) :
  ∀ t n, tree_ok ok t = true → tree_lookup t rel = Some n →
  Forall (λ nm, ok nm = true) rel ∧ tree_ok ok n = true.
Proof.
  induction rel as [|nm rel IH]; intros t n Hok Hl.
  - cbn in Hl. by simplify_eq.
  - destruct t as [| |cs]; [done..|].
    apply tree_lookup_cons in Hl as (c & Hin & Hl).
    apply tree_ok_Dir in Hok as [_ Hcs]. rewrite Forall_forall in Hcs.
    destruct (Hcs _ Hin) as [Hnm Hc]. cbn [fst snd] in Hnm, Hc.
    destruct (IH c n Hc Hl) as [Hrel Hn]. split; [by constructor|done].
Qed.

Lemma mem_replace (old new : ascii) (s : string) :
  old ≠ new → Str.mem old (Str.replace old new s) = false.
Proof.
  intros Hne. induction s as [|a s IH]; [done|].
  cbn [Str.replace]. rewrite mem_String, IH, orb_false_r.
  destruct (Ascii.eqb_spec a old) as [->|Ha]; by apply Ascii.eqb_neq.
Qed.

(** X1: on every tree with valid names and no name listed twice, whatever
    the order of the walk, the collector returns a sorted list that holds
    exactly the texts made from the regular files of the tree that have an
    image extension, a name without a leading dot and no ignored component
    on their absolute path: the components joined by slashes, any backslash
    replaced.  No returned text holds a backslash. *)
Theorem collector_exact (fs : filesystem) (root_path : PurePath.t) (tree : node) :
  shows fs root_path tree → tree_ok valid_name tree = true →
  ∃ paths,
    get_image_paths fs = Ok paths ∧
    Sorted String.le paths ∧
    Forall (λ s, Str.mem Str.backslash s = false) paths ∧
    ∀ s, s ∈ paths ↔
      ∃ rel, rel ≠ [] ∧ tree_lookup tree rel = Some File ∧
             Forall (λ part, part ∉ ignore_dirs) (PurePath.parts root_path ++ rel) ∧
             Str.startswith "." (List.last rel "") = false ∧
             Str.lower (PurePath.suffix_of_name (List.last rel "")) ∈ image_extensions ∧
             s = Str.replace Str.backslash Str.slash (Str.join "/" rel).
Proof.
  intros Hshows Hok. exists (collect root_path (rglob tree)).
  assert (∀ s, s ∈ collect root_path (rglob tree) ↔
      ∃ rel, rel ≠ [] ∧ tree_lookup tree rel = Some File ∧
             Forall (λ part, part ∉ ignore_dirs) (PurePath.parts root_path ++ rel) ∧
             Str.startswith "." (List.last rel "") = false ∧
             Str.lower (PurePath.suffix_of_name (List.last rel "")) ∈ image_extensions ∧
             s = Str.replace Str.backslash Str.slash (Str.join "/" rel)) as Hiff.
  { intros s. rewrite elem_of_collect. split.
    - intros (e & He & Hs).
      destruct (rglob_under_sound valid_name tree [] e Hok He)
        as (rel & n & Hne & Hrel & Hvalid & Hl & Hfile).
      cbn [app] in Hrel. apply collect_entry_Some in Hs as (Hig & Hdot & Hf & Hext & ->).
      rewrite Hrel in *. rewrite last_app_r in Hdot, Hext by done.
      exists rel. split_and!; try done.
      + rewrite Hl. f_equal. rewrite Hf in Hfile. by destruct n.
      + by rewrite str_join.
    - intros (rel & Hne & Hl & Hig & Hdot & Hext & ->).
      exists (Entry rel true). split.
      + by apply (rglob_under_complete rel tree [] File).
      + destruct (tree_lookup_names valid_name rel tree File Hok Hl) as [Hvalid _].
        apply collect_entry_Some. cbn [entry_rel entry_is_file].
        rewrite last_app_r by done. split_and!; try done. by rewrite str_join. }
  split_and!.
  - by apply get_image_paths_shows.
  - apply collect_sorted.
  - apply Forall_forall. intros s (rel & _ & _ & _ & _ & _ & ->)%Hiff.
    by apply mem_replace.
  - done.
Qed.

Lemma collector_exact_witness :
  shows (mount Sample.repo Sample.leak) Sample.repo Sample.leak ∧
  tree_ok valid_name Sample.leak = true ∧
  ∃ paths,
    get_image_paths (mount Sample.repo Sample.leak) = Ok paths ∧
    "out/x.png" ∈ paths ∧ ("a.png" ∉ paths).
Proof.
  assert (shows (mount Sample.repo Sample.leak) Sample.repo Sample.leak) as Hs.
  { split; [done|]. by eexists. }
  split_and!; [done..|].
  destruct (collector_exact _ _ _ Hs eq_refl) as (paths & Hp & _ & _ & Hiff).
  exists paths. split_and!; [done| |].
  - apply Hiff. exists ["out\x.png"]. split_and!; try done.
    + repeat constructor; by intros ?%(bool_decide_eq_true_2 _).
    + by apply (bool_decide_eq_true_1 _).
  - injection Hp as <-. by intros ?%(bool_decide_eq_true_2 _).
Defined.

Lemma plain_tree_witness :
  shows Sample.scenario_backwards Sample.repo Sample.scenario ∧
  tree_ok plain_name Sample.scenario = true ∧
  ∃ paths,
    get_image_paths Sample.scenario_backwards = Ok paths ∧
    Sorted String.le paths ∧ NoDup paths ∧
    ("no_extension" ∉ Dict.keys (group_by_extension paths)).
Proof.
  assert (shows Sample.scenario_backwards Sample.repo Sample.scenario) as Hs.
  { split; [done|]. eexists. split; [done|]. apply reverse_Permutation. }
  split_and!; [done..|].
  destruct (collector_on_plain_trees _ _ _ Hs eq_refl)
    as (paths & Hp & Hsorted & Hnd & _ & Hkeys).
  by exists paths.
Defined.

(** ** A checkout below an ignored name *)

Lemma omap_all_None {A B} (f : A → option B) (l : list A) :
  (∀ x, x ∈ l → f x = None) → omap f l = [].
Proof.
  induction l as [|x l IH]; [done|]. intros Hall. csimpl.
  rewrite (Hall x) by left. apply IH. intros y Hy. apply Hall. by right.
Qed.

(** X3: the ignore test reads the components of the absolute path, those of
    the resolved root included: when one of them is an ignored name, nothing
    is collected, whatever the walk yields. *)
Theorem ignored_root_hides_everything
    (fs : filesystem) (root_path : PurePath.t) (walk : list entry) (part : string) :
  fs_resolve fs = Ok root_path → fs_rglob fs = Ok walk →
  part ∈ PurePath.parts root_path → part ∈ ignore_dirs →
  get_image_paths fs = Ok [].
Proof.
  intros Hres Hwalk Hpart Hig. unfold get_image_paths. rewrite Hres, Hwalk.
  f_equal. unfold collect. rewrite omap_all_None; [done|].
  intros e _. destruct (collect_entry root_path e) as [s|] eqn:Hs; [|done].
  apply collect_entry_Some in Hs as (Hall & _).
  apply Forall_app in Hall as [Hroot _]. rewrite Forall_forall in Hroot.
  by destruct (Hroot part Hpart).
Qed.

Lemma ignored_root_witness :
  let root_path := PurePath.mk "/" ["home"; "dev"; "build"; "site"] in
  ("build" ∈ PurePath.parts root_path) ∧ ("build" ∈ ignore_dirs) ∧
  get_image_paths (mount Sample.repo Sample.scenario) = Ok ["a.png"; "a/b.JPG"] ∧
  get_image_paths (mount root_path Sample.scenario) = Ok [].
Proof.
  intros root_path.
  assert ("build" ∈ PurePath.parts root_path) as Hpart
    by (by apply (bool_decide_eq_true_1 _)).
  assert ("build" ∈ ignore_dirs) as Hig by (by apply (bool_decide_eq_true_1 _)).
  split_and!; [done..|].
  by apply (ignored_root_hides_everything _ root_path (rglob Sample.scenario) "build").
Defined.

(** ** Counts *)

Lemma length_first_seen (l : list string) : (length (first_seen l) ≤ length l)%nat.
Proof.
  induction l as [|x l IH]; csimpl; [done|].
  pose proof (length_filter (λ y, y ≠ x) (first_seen l)). lia.
Qed.

Lemma get_fmap {V W} (f : V → W) (d : Dict.t V) (k : string) :
  Dict.get k ((λ kv, (kv.1, f kv.2)) <$> d) = f <$> Dict.get k d.
Proof.
  induction d as [|[k' v] d IH]; csimpl; [done|].
  by destruct (String.eqb k' k).
Qed.

(** X4: each statistics dictionary lists the keys of its grouping in the
    same order, each with the length of its group; the count stored under a
    key is the number of paths of the list that have this key, and is never
    zero. *)
Theorem statistics_count_each_group (a : ambient) (paths : list string) :
  let r := create_json_output a paths in
  stat_by_folder (r_statistics r)
    = (λ kv, (kv.1, length kv.2)) <$> by_folder (r_images r) ∧
  stat_by_extension (r_statistics r)
    = (λ kv, (kv.1, length kv.2)) <$> by_extension (r_images r) ∧
  (∀ k n, Dict.get k (stat_by_folder (r_statistics r)) = Some n ↔
          k ∈ folder_key <$> paths ∧ n = length (filter (λ p, folder_key p = k) paths)) ∧
  (∀ k n, Dict.get k (stat_by_extension (r_statistics r)) = Some n ↔
          k ∈ extension_key <$> paths
          ∧ n = length (filter (λ p, extension_key p = k) paths)) ∧
  Forall (λ n, (1 ≤ n)%nat) (Dict.values (stat_by_folder (r_statistics r))) ∧
  Forall (λ n, (1 ≤ n)%nat) (Dict.values (stat_by_extension (r_statistics r))).
Proof.
  assert (∀ key k n,
    Dict.get k (count_groups (group key paths)) = Some n ↔
    k ∈ key <$> paths ∧ n = length (filter (λ p, key p = k) paths)) as Hget.
  { intros key k n. rewrite count_groups_table by apply group_keys_NoDup.
    rewrite get_fmap, group_get. destruct (decide (k ∈ key <$> paths)); csimpl.
    - split; [by intros [= <-]|by intros [_ ->]].
    - split; [done|by intros [? _]]. }
  assert (∀ key, Forall (λ n, (1 ≤ n)%nat) (Dict.values (count_groups (group key paths))))
    as Hpos.
  { intros key. rewrite count_groups_table by apply group_keys_NoDup.
    unfold Dict.values. rewrite <- list_fmap_compose. apply Forall_fmap, Forall_forall.
    intros [k v] Hkv. cbn. apply group_row_nonempty in Hkv.
    destruct v; [done|]. cbn. lia. }
  cbn zeta. unfold create_json_output, group_by_folder, group_by_extension. cbn.
  split_and!; [by apply count_groups_table, group_keys_NoDup..|apply Hget|apply Hget| |];
    apply Hpos.
Qed.

(** X5: a report never has more folders, or more extensions, than images,
    and has at least one of each as soon as it has an image: in the summary
    of a non-empty list, M lies between 1 and N. *)
Theorem groups_at_most_images (a : ambient) (paths : list string) :
  let r := create_json_output a paths in
  (length (by_folder (r_images r)) ≤ total_images (r_metadata r))%nat ∧
  (length (by_extension (r_images r)) ≤ total_images (r_metadata r))%nat ∧
  (paths ≠ [] → (1 ≤ length (by_folder (r_images r)))%nat
                ∧ (1 ≤ length (by_extension (r_images r)))%nat).
Proof.
  assert (∀ key, (length (group key paths) ≤ length paths)%nat) as Hle.
  { intros key. rewrite <- (length_fmap fst). fold (Dict.keys (group key paths)).
    rewrite group_keys. etrans; [apply length_first_seen|]. by rewrite length_fmap. }
  assert (∀ key, paths ≠ [] → (1 ≤ length (group key paths))%nat) as Hge.
  { intros key Hne. rewrite <- (length_fmap fst). fold (Dict.keys (group key paths)).
    rewrite group_keys. destruct paths; [done|]. csimpl. lia. }
  cbn zeta. unfold create_json_output, group_by_folder, group_by_extension. cbn.
  split_and!; [apply Hle..|]. intros Hne. split; by apply Hge.
Qed.

(** ** What a run touches *)

Lemma build_output_total (a : ambient) (paths : list string) :
  total_images (r_metadata (build_output a paths)) = length paths.
Proof. by destruct paths. Qed.

(** X6: in a run whose scan returns, whose write succeeds and whose append
    to the file named by [GITHUB_OUTPUT] succeeds, that file receives the two
    lines [total_images=N] and [output_file=image_paths.json], N being the
    number of collected paths, zero included; the status is 0. *)
Theorem ci_sink_gets_the_count (h : host) (paths : list string) (sink : string) :
  let lines := "total_images=" +:+ Str.of_nat (length paths) +:+ nl
               +:+ "output_file=image_paths.json" +:+ nl in
  get_image_paths (files h) = Ok paths →
  open_write h output_file
    (Json.dumps 0 (report_to_json (build_output (surroundings h) paths))) = None →
  environ (surroundings h) !! "GITHUB_OUTPUT" = Some sink →
  open_append h sink lines = None →
  appended (run_effects h) = [(sink, lines)] ∧ exit_status h = 0%Z.
Proof.
  intros lines Hscan Hw Henv Ha. pose proof (main_footprint h) as Hf.
  rewrite Hscan in Hf. cbn zeta in Hf. rewrite Hw, Henv in Hf.
  assert (step_outputs (build_output (surroundings h) paths) = lines) as Hlines.
  { unfold step_outputs. by rewrite build_output_total. }
  rewrite Hlines, Ha in Hf. by apply footprint_fields in Hf as (? & _ & _ & ?).
Qed.

Lemma ci_sink_witness :
  let a := {| now_isoformat := "2024-05-01T10:00:00";
              environ := {[ "GITHUB_OUTPUT" := "/tmp/step_output" ]} |} in
  let h := Sample.writable (mount Sample.repo Sample.scenario) a in
  get_image_paths (files h) = Ok ["a.png"; "a/b.JPG"] ∧
  environ a !! "GITHUB_OUTPUT" = Some "/tmp/step_output" ∧
  appended (run_effects h)
  = [("/tmp/step_output",
      "total_images=2" +:+ nl +:+ "output_file=image_paths.json" +:+ nl)].
Proof.
  intros a h. split_and!; [done..|].
  by destruct (ci_sink_gets_the_count h ["a.png"; "a/b.JPG"] "/tmp/step_output"
                 eq_refl eq_refl eq_refl eq_refl) as [-> _].
Defined.

(** X7: whatever the host does, a run writes no file but [image_paths.json],
    and that at most once; it appends at most once, only to the file named by
    [GITHUB_OUTPUT] and only after the report was written; its status is 0 or
    1, it is 0 exactly when the error stream stays empty, and a run with
    status 0 has written the report. *)
Theorem run_touches_only_its_output (h : host) :
  (written (run_effects h) = [] ∨
   ∃ text, written (run_effects h) = [(output_file, text)]) ∧
  (appended (run_effects h) = [] ∨
   ∃ sink text, environ (surroundings h) !! "GITHUB_OUTPUT" = Some sink
                ∧ appended (run_effects h) = [(sink, text)]
                ∧ written (run_effects h) ≠ [] ∧ exit_status h = 0%Z) ∧
  (exit_status h = 0%Z ∨ exit_status h = 1%Z) ∧
  (exit_status h = 0%Z ↔ stderr (run_effects h) = []) ∧
  (exit_status h = 0%Z → written (run_effects h) ≠ []).
Proof.
  pose proof (main_footprint h) as Hf.
  destruct (get_image_paths (files h)) as [paths|msg]; cbn zeta in Hf.
  - destruct (open_write h output_file _) as [msg|].
    { apply footprint_fields in Hf as (-> & -> & -> & ->).
      split_and!; [by left|by left|by right|done|done]. }
    destruct (environ (surroundings h) !! "GITHUB_OUTPUT") as [sink|] eqn:Henv.
    + destruct (open_append h sink _) as [msg|];
        apply footprint_fields in Hf as (-> & -> & -> & ->).
      * split_and!; [right; by eexists|by left|by right|done|done].
      * split_and!; [right; by eexists|right; by eexists _, _|by left|done|done].
    + apply footprint_fields in Hf as (-> & -> & -> & ->).
      split_and!; [right; by eexists|by left|by left|done|done].
  - apply footprint_fields in Hf as (-> & -> & -> & ->).
    split_and!; [by left|by left|by right|done|done].
Qed.

(** ** Folder keys of relative paths *)

Lemma join_root (rel : list string) :
  rel ≠ [] → Forall (λ nm, valid_name nm = true) rel →
  Str.join "/" rel = "root" → rel = ["root"].
Proof.
  intros Hne Hall Heq. apply (join_inj rel ["root"]); try done.
  by repeat constructor.
Qed.

Lemma folder_key_of_file (dir : list string) (nm : string) :
  Forall (λ x, valid_name x = true) dir → valid_name nm = true →
  folder_key (Str.join "/" (dir ++ [nm]))
  = match dir with [] => "root" | _ => Str.join "/" dir end.
Proof.
  intros Hdir Hnm. destruct dir as [|d dir].
  - by apply folder_key_top.
  - by apply folder_key_nested.
Qed.

(** X8: two files, given by the components of their directories below the
    root and their names, fall into the same folder group exactly when they
    lie in the same directory, or when one lies in the root directory and the
    other in the directory [root] just below it: the sentinel of the root
    directory is also the key of that directory. *)
Theorem same_folder_group (dir1 dir2 : list string) (nm1 nm2 : string) :
  Forall (λ x, valid_name x = true) dir1 → valid_name nm1 = true →
  Forall (λ x, valid_name x = true) dir2 → valid_name nm2 = true →
  folder_key (Str.join "/" (dir1 ++ [nm1])) = folder_key (Str.join "/" (dir2 ++ [nm2]))
  ↔ dir1 = dir2 ∨ (dir1 = [] ∧ dir2 = ["root"]) ∨ (dir1 = ["root"] ∧ dir2 = []).
Proof.
  intros Hd1 Hn1 Hd2 Hn2. rewrite !folder_key_of_file by done.
  destruct dir1 as [|d1 dir1], dir2 as [|d2 dir2].
  - split; [by left|done].
  - split.
    + intros Heq. right. left. split; [done|]. by apply join_root.
    + by intros [?|[[_ ->]|[? _]]].
  - split.
    + intros Heq. right. right. split; [|done]. by apply join_root.
    + by intros [?|[[? _]|[-> _]]].
  - split.
    + intros Heq. left. by apply join_inj.
    + by intros [->|[[? _]|[_ ?]]].
Qed.

Lemma same_folder_group_witness :
  folder_key "logo.png" = "root" ∧ folder_key "root/banner.png" = "root" ∧
  group_by_folder ["logo.png"; "root/banner.png"]
  = [("root", ["logo.png"; "root/banner.png"])].
Proof.
  assert (folder_key (Str.join "/" ([] ++ ["logo.png"]))
          = folder_key (Str.join "/" (["root"] ++ ["banner.png"]))) as Hsame.
  { apply same_folder_group; [by repeat constructor..|]. right. by left. }
  split_and!; [done..|].
  unfold group_by_folder, group, foldl, group_step.
  change (folder_key "logo.png") with (folder_key (Str.join "/" ([] ++ ["logo.png"]))).
  change (folder_key "root/banner.png")
    with (folder_key (Str.join "/" (["root"] ++ ["banner.png"]))).
  rewrite <- Hsame. reflexivity.
Defined.

(** ** Extension keys *)

Lemma lower_char_idemp (c : ascii) : Str.lower_char (Str.lower_char c) = Str.lower_char c.
Proof. by destruct c as [[] [] [] [] [] [] [] []]. Qed.

Lemma lower_idemp (s : string) : Str.lower (Str.lower s) = Str.lower s.
Proof.
  induction s as [|a s IH]; [done|]. cbn [Str.lower]. by rewrite lower_char_idemp, IH.
Qed.

Lemma extension_key_lower (p : string) : Str.lower (extension_key p) = extension_key p.
Proof.
  unfold extension_key. destruct (String.eqb _ _); [done|]. apply lower_idemp.
Qed.

Lemma Path_join_name (dir : list string) (nm : string) :
  Forall (λ x, valid_name x = true) dir → valid_name nm = true →
  PurePath.name (PurePath.Path (Str.join "/" (dir ++ [nm]))) = nm.
Proof.
  intros Hdir Hnm.
  rewrite Path_join; [|by destruct dir|by apply Forall_app; split; [|constructor]].
  unfold PurePath.name. cbn [PurePath.tail]. by rewrite last_app_r.
Qed.

Lemma lower_char_ascii (c : ascii) :
  (nat_of_ascii c <? 128)%nat = true → (nat_of_ascii (Str.lower_char c) <? 128)%nat = true.
Proof. by destruct c as [[] [] [] [] [] [] [] []]. Qed.

Lemma is_ascii_lower (s : string) :
  Str.is_ascii s = true → Str.is_ascii (Str.lower s) = true.
Proof.
  induction s as [|a s IH]; [done|]. cbn [Str.is_ascii Str.lower].
  intros [Ha Hs]%andb_true_iff. by rewrite lower_char_ascii, IH.
Qed.

Lemma is_ascii_drop (i : nat) (s : string) :
  Str.is_ascii s = true → Str.is_ascii (Str.drop i s) = true.
Proof.
  revert s. induction i as [|i IH]; intros [|a s]; try done.
  cbn [Str.is_ascii Str.drop]. intros [_ Hs]%andb_true_iff. by apply IH.
Qed.

Lemma is_ascii_split (c : ascii) (s : string) :
  Str.is_ascii s = true → Forall (λ w, Str.is_ascii w = true) (Str.split c s).
Proof.
  induction s as [|a s IH]; [by repeat constructor|].
  cbn [Str.is_ascii Str.split]. intros [Ha Hs]%andb_true_iff. specialize (IH Hs).
  destruct (Ascii.eqb a c); [by constructor|].
  destruct (Str.split c s) as [|w ws].
  - repeat constructor. cbn [Str.is_ascii]. by rewrite Ha.
  - apply Forall_cons in IH as [Hw Hws]. constructor; [|done].
    cbn [Str.is_ascii]. by rewrite Ha, Hw.
Qed.

Lemma is_ascii_splitroot (p : string) :
  Str.is_ascii p = true → Str.is_ascii (PurePath.splitroot p).2 = true.
Proof.
  intros Hp. unfold PurePath.splitroot.
  repeat match goal with
         | |- context [match ?x with EmptyString => _ | String _ _ => _ end] =>
             destruct x; try done
         | |- context [match ?x with Ascii _ _ _ _ _ _ _ _ => _ end] =>
             destruct x as [[] [] [] [] [] [] [] []]; try done
         end;
    cbn [Str.is_ascii snd] in *;
    repeat match goal with
           | H : _ && _ = true |- _ => apply andb_true_iff in H as [? ?]
           end; done.
Qed.

Lemma is_ascii_last (l : list string) :
  Forall (λ w, Str.is_ascii w = true) l → Str.is_ascii (List.last l "") = true.
Proof.
  induction 1 as [|w l Hw Hl IH]; [done|]. cbn [List.last]. by destruct l.
Qed.

(** The key of an ASCII path is ASCII. *)
Lemma extension_key_ascii (p : string) :
  Str.is_ascii p = true → Str.is_ascii (extension_key p) = true.
Proof.
  intros Hp. unfold extension_key. destruct (String.eqb _ _); [done|].
  apply is_ascii_lower. unfold PurePath.suffix, PurePath.suffix_of_name.
  assert (Str.is_ascii (PurePath.name (PurePath.Path p)) = true) as Hname.
  { unfold PurePath.name, PurePath.Path.
    pose proof (is_ascii_splitroot p Hp) as Hrel.
    destruct (PurePath.splitroot p) as [rt rel]. cbn [snd] in Hrel.
    cbn [PurePath.tail]. apply is_ascii_last.
    apply Forall_forall. intros w [Hw _]%list_elem_of_In%filter_In.
    pose proof (is_ascii_split Str.slash rel Hrel) as Hall.
    rewrite Forall_forall in Hall. by apply Hall, list_elem_of_In. }
  destruct (_ && _); [by apply is_ascii_drop|done].
Qed.

(** X9: on ASCII paths, where [lower] is what [str.lower] does:
    [group_by_extension] reads the key of a path off its file name alone,
    lowercased, so the keys of a grouping are lowercase ASCII and file names
    that differ in the case of their letters only share a group; the keys
    stand in order of first appearance, without repetition, and each list
    holds the paths of its key in input order, sorted when the input is. *)
Theorem group_by_extension_rows (paths : list string) :
  Forall (λ p, Str.is_ascii p = true) paths →
  let g := group_by_extension paths in
  (∀ dir nm, Forall (λ x, valid_name x = true) dir → valid_name nm = true →
     Str.is_ascii nm = true →
     extension_key (Str.join "/" (dir ++ [nm]))
     = let ext := Str.lower (PurePath.suffix_of_name nm) in
       if String.eqb ext "" then "no_extension" else ext) ∧
  (∀ dir1 nm1 dir2 nm2,
     Forall (λ x, valid_name x = true) dir1 → valid_name nm1 = true →
     Forall (λ x, valid_name x = true) dir2 → valid_name nm2 = true →
     Str.is_ascii nm1 = true → Str.is_ascii nm2 = true →
     Str.lower (PurePath.suffix_of_name nm1) = Str.lower (PurePath.suffix_of_name nm2) →
     extension_key (Str.join "/" (dir1 ++ [nm1]))
     = extension_key (Str.join "/" (dir2 ++ [nm2]))) ∧
  Forall (λ k, Str.is_ascii k = true ∧ Str.lower k = k) (Dict.keys g) ∧
  NoDup (Dict.keys g) ∧
  (∀ k v, (k, v) ∈ g ↔
          k ∈ extension_key <$> paths ∧ v = filter (λ p, extension_key p = k) paths) ∧
  (∀ x, Str.is_ascii x = true →
        group_by_extension (paths ++ [x]) =
          if decide (extension_key x ∈ Dict.keys g)
          then Dict.alter (λ l, l ++ [x]) (extension_key x) g
          else g ++ [(extension_key x, [x])]) ∧
  (Sorted String.le paths → ∀ k v, (k, v) ∈ g → Sorted String.le v).
Proof.
  intros Hascii.
  assert (∀ dir nm, Forall (λ x, valid_name x = true) dir → valid_name nm = true →
     extension_key (Str.join "/" (dir ++ [nm]))
     = let ext := Str.lower (PurePath.suffix_of_name nm) in
       if String.eqb ext "" then "no_extension" else ext) as Hkey.
  { intros dir nm Hdir Hnm. unfold extension_key, PurePath.suffix.
    by rewrite Path_join_name. }
  cbn zeta. unfold group_by_extension. split_and!.
  - intros dir nm Hdir Hnm _. by apply Hkey.
  - intros dir1 nm1 dir2 nm2 Hd1 Hn1 Hd2 Hn2 _ _ Heq.
    rewrite !Hkey by done. cbn zeta. by rewrite Heq.
  - rewrite group_keys. apply Forall_forall.
    intros k (p & -> & Hp)%elem_of_first_seen%list_elem_of_fmap.
    rewrite Forall_forall in Hascii. split.
    + by apply extension_key_ascii, Hascii.
    + apply extension_key_lower.
  - apply group_keys_NoDup.
  - intros k v. apply elem_of_group.
  - intros x _. rewrite group_snoc. unfold group_step.
    destruct (Dict.contains (extension_key x) (group extension_key paths)) eqn:Hc.
    + apply contains_elem_of in Hc. by rewrite decide_True.
    + apply contains_false in Hc. rewrite decide_False by done.
      by rewrite set_fresh, alter_last.
  - intros Hs k v [_ ->]%elem_of_group. by apply Sorted_filter; [apply _|].
Qed.

Lemma group_by_extension_witness :
  let paths := ["a.PNG"; "b/c.png"; "b/d.Jpg"; "notes"] in
  Forall (λ p, Str.is_ascii p = true) paths ∧
  Sorted String.le paths ∧
  group_by_extension paths
  = [(".png", ["a.PNG"; "b/c.png"]); (".jpg", ["b/d.Jpg"]); ("no_extension", ["notes"])] ∧
  extension_key (Str.join "/" ([] ++ ["a.PNG"])) = extension_key (Str.join "/" (["b"] ++ ["c.png"])) ∧
  (∀ k v, (k, v) ∈ group_by_extension paths → Sorted String.le v).
Proof.
  intros paths.
  assert (Forall (λ p, Str.is_ascii p = true) paths) as Ha by (by repeat constructor).
  assert (Sorted String.le paths) as Hs by (repeat constructor).
  destruct (group_by_extension_rows paths Ha) as (_ & Hcase & _ & _ & _ & _ & Hsorted).
  split_and!; [done..| |by apply Hsorted].
  apply Hcase; by repeat constructor.
Defined.

(** ** The lines of a run *)

Lemma sorted_items_Sorted {V} (d : Dict.t V) :
  Sorted (λ a b : string * V, String.le a.1 b.1) (sorted_items d).
Proof.
  assert (Total (λ a b : string * V, String.le a.1 b.1)) as Htotal.
  { intros a b. apply (total String.le). }
  apply (Sorted_merge_sort _).
Qed.

Lemma sorted_items_Permutation {V} (d : Dict.t V) : sorted_items d ≡ₚ d.
Proof. apply merge_sort_Permutation. Qed.

Lemma main_scan_lines (h : host) (p : string) (paths : list string) (fx : effects) :
  get_image_paths (files h) = Ok (p :: paths) →
  main_scan h fx
  = ({| stdout := stdout fx
          ++ ["📊 找到 " +:+ Str.of_nat (length (p :: paths)) +:+ " 个图片文件";
              nl +:+ "📁 按扩展名统计:"]
          ++ ((λ kv, "  " +:+ kv.1 +:+ ": " +:+ Str.of_nat (length kv.2) +:+ " 个")
                <$> sorted_items (group_by_extension (p :: paths)));
        stderr := stderr fx; written := written fx; appended := appended fx |},
     Ok (create_json_output (surroundings h) (p :: paths))).
Proof.
  intros Hscan. unfold main_scan, mbind, io_bind, lift. rewrite Hscan.
  unfold print at 1 2. cbn [fst snd stdout stderr written appended].
  rewrite for_each_print. cbn [fst snd stdout stderr written appended mret io_ret].
  by rewrite <- !app_assoc.
Qed.

(** X10: in a run that collects at least one path and writes its report,
    the standard output is the opening line, the count, a heading, one line
    per extension group giving its key and its size, in ascending order of
    the keys and not in the order of the report, then the two closing lines;
    the sizes printed add up to the count. *)
Theorem extension_lines_in_key_order (h : host) (paths : list string) :
  get_image_paths (files h) = Ok paths → paths ≠ [] →
  open_write h output_file
    (Json.dumps 0 (report_to_json (build_output (surroundings h) paths))) = None →
  ∃ items,
    items ≡ₚ group_by_extension paths ∧
    Sorted (λ a b : string * list string, String.le a.1 b.1) items ∧
    sum_list ((λ kv, length kv.2) <$> items) = length paths ∧
    stdout (run_effects h)
    = ["🚀 开始扫描图片文件...";
       "📊 找到 " +:+ Str.of_nat (length paths) +:+ " 个图片文件";
       nl +:+ "📁 按扩展名统计:"]
      ++ ((λ kv, "  " +:+ kv.1 +:+ ": " +:+ Str.of_nat (length kv.2) +:+ " 个") <$> items)
      ++ [nl +:+ "✅ 成功生成 image_paths.json";
          "📝 总图片数: " +:+ Str.of_nat (length paths)].
Proof.
  intros Hscan Hne Hw. exists (sorted_items (group_by_extension paths)).
  split_and!.
  - apply sorted_items_Permutation.
  - apply sorted_items_Sorted.
  - rewrite sorted_items_Permutation. unfold group_by_extension.
    change (λ kv : string * list string, length kv.2)
      with (length ∘ (snd : string * list string → list string)).
    rewrite list_fmap_compose, sum_list_lengths.
    apply Permutation_length, group_values_perm.
  - destruct paths as [|p paths]; [done|]. cbn [build_output] in Hw.
    unfold run_effects, main, main_body. unfold print at 1.
    unfold mbind at 1, io_bind at 1.
    rewrite (main_scan_lines h p paths) by done. rewrite main_emit_run. cbn zeta.
    rewrite Hw. cbn [stdout no_effects total_images r_metadata create_json_output].
    destruct (environ (surroundings h) !! "GITHUB_OUTPUT") as [sink|];
      [destruct (open_append h sink _)|];
      cbn [fst stdout]; by rewrite <- !app_assoc.
Qed.

Lemma extension_lines_witness :
  let h := Sample.writable (mount Sample.repo Sample.scenario) Sample.first_run in
  get_image_paths (files h) = Ok ["a.png"; "a/b.JPG"] ∧
  Dict.keys (group_by_extension ["a.png"; "a/b.JPG"]) = [".png"; ".jpg"] ∧
  ∃ items,
    items.*1 ≡ₚ [".png"; ".jpg"] ∧
    Sorted (λ a b : string * list string, String.le a.1 b.1) items ∧
    stdout (run_effects h)
    = ["🚀 开始扫描图片文件..."; "📊 找到 2 个图片文件"; nl +:+ "📁 按扩展名统计:"]
      ++ ((λ kv, "  " +:+ kv.1 +:+ ": " +:+ Str.of_nat (length kv.2) +:+ " 个") <$> items)
      ++ [nl +:+ "✅ 成功生成 image_paths.json"; "📝 总图片数: 2"].
Proof.
  intros h. split_and!; [done..|].
  assert (["a.png"; "a/b.JPG"] ≠ []) as Hne by done.
  destruct (extension_lines_in_key_order h ["a.png"; "a/b.JPG"] eq_refl Hne eq_refl)
    as (items & Hperm & Hsorted & _ & Hout).
  exists items. split_and!; [|done..]. by rewrite Hperm.
Defined.

(** ** Text that needs no escaping *)

Lemma escape_plain (s : string) :
  Forall (λ c, (32 ≤ nat_of_ascii c)%nat ∧ c ≠ Str.dquote ∧ c ≠ Str.backslash)
         (list_ascii_of_string s) →
  Json.escape s = s.
Proof.
  induction s as [|c s IH]; [done|]. cbn [list_ascii_of_string Json.escape].
  intros [(Hc & Hq & Hb) Hs]%Forall_cons. rewrite IH by done.
  unfold Json.escape_char.
  apply Ascii.eqb_neq in Hq, Hb. rewrite Hq, Hb.
  assert ((nat_of_ascii c =? 8)%nat = false) as -> by (apply Nat.eqb_neq; lia).
  assert ((nat_of_ascii c =? 12)%nat = false) as -> by (apply Nat.eqb_neq; lia).
  assert ((nat_of_ascii c =? 10)%nat = false) as -> by (apply Nat.eqb_neq; lia).
  assert ((nat_of_ascii c =? 13)%nat = false) as -> by (apply Nat.eqb_neq; lia).
  assert ((nat_of_ascii c =? 9)%nat = false) as -> by (apply Nat.eqb_neq; lia).
  assert ((nat_of_ascii c <? 32)%nat = false) as -> by (apply Nat.ltb_ge; lia).
  done.
Qed.

Lemma escape_char_printable (c : ascii) :
  forallb (λ x, (32 <=? nat_of_ascii x)%nat) (list_ascii_of_string (Json.escape_char c))
  = true.
Proof. by destruct c as [[] [] [] [] [] [] [] []]. Qed.

Lemma list_ascii_app (s1 s2 : string) :
  list_ascii_of_string (s1 +:+ s2) = list_ascii_of_string s1 ++ list_ascii_of_string s2.
Proof.
  induction s1 as [|a s1 IH]; [done|]. rewrite app_String. cbn. by rewrite IH.
Qed.

(** X11: the report is written with [ensure_ascii=False]: a string made of
    characters that are neither control characters, nor the quote, nor the
    backslash (a file name in any script, any path of an ordinary tree) is
    written as it is between two quotes; and whatever the string, no control
    character reaches the file inside it. *)
Theorem strings_are_written_verbatim (s : string) :
  (Forall (λ c, (32 ≤ nat_of_ascii c)%nat ∧ c ≠ Str.dquote ∧ c ≠ Str.backslash)
          (list_ascii_of_string s) →
   Json.encode_string s = String Str.dquote (s +:+ String Str.dquote "")) ∧
  Forall (λ c, (32 ≤ nat_of_ascii c)%nat) (list_ascii_of_string (Json.encode_string s)).
Proof.
  split.
  - intros Hs. unfold Json.encode_string. by rewrite escape_plain.
  - unfold Json.encode_string. cbn [list_ascii_of_string]. rewrite list_ascii_app.
    constructor; [vm_compute; lia|]. apply Forall_app.
    split; [|repeat constructor; vm_compute; lia].
    induction s as [|c s IH]; [constructor|]. cbn [Json.escape].
    rewrite list_ascii_app. apply Forall_app. split; [|done].
    pose proof (escape_char_printable c) as Hc.
    apply Forall_forall. intros x Hx%list_elem_of_In.
    rewrite forallb_forall in Hc. by apply Nat.leb_le, Hc.
Qed.

Lemma strings_verbatim_witness :
  Json.encode_string "图片/猫 1.PNG"
  = String Str.dquote ("图片/猫 1.PNG" +:+ String Str.dquote "").
Proof.
  apply (strings_are_written_verbatim "图片/猫 1.PNG").
  apply Forall_forall. intros c Hc%list_elem_of_In.
  assert (forallb (λ c, (32 <=? nat_of_ascii c)%nat
                        && negb (Ascii.eqb c Str.dquote) && negb (Ascii.eqb c Str.backslash))
            (list_ascii_of_string "图片/猫 1.PNG") = true) as Hall by done.
  rewrite forallb_forall in Hall. specialize (Hall c Hc).
  apply andb_true_iff in Hall as [[H1 H2]%andb_true_iff H3].
  apply Nat.leb_le in H1. apply negb_true_iff, Ascii.eqb_neq in H2, H3. done.
Defined.
